(** * chief_bot: utterance classifier, sentence chunker, gateway stream
      reader and turn arbitrator of [backend/chief_bot.py]

    Text is a list of 8-bit characters (the ASCII range of Python's [str];
    a character above 127 is neither a letter nor white space here).
    Python floats (thresholds, clock readings, durations) are exact
    rationals [Q]; rounding is not modelled.  Log calls are left out. *)

From Stdlib Require Import Ascii String DecimalString List Bool Arith ZArith QArith Lia.
From Stdlib Require DecimalNat.
Import ListNotations.
Local Close Scope Q_scope.
Local Close Scope Z_scope.
Local Open Scope nat_scope.
Local Open Scope list_scope.

(** ** Python text primitives *)

Module Py.

Definition str := list ascii.

(** A literal of the source. *)
Definition lit (x : string) : str := list_ascii_of_string x.

Definition str_eq_dec : forall a b : str, {a = b} + {a <> b} :=
  list_eq_dec ascii_dec.

Definition str_eqb (a b : str) : bool := if str_eq_dec a b then true else false.

(** [x in xs] on a collection of strings. *)
Definition mem (x : str) (xs : list str) : bool := existsb (str_eqb x) xs.

(** [c in chars] for one character. *)
Definition char_in (c : ascii) (chars : str) : bool :=
  existsb (Ascii.eqb c) chars.

(** [str.isspace] on one character of the ASCII range:
    tab, line feed, vertical tab, form feed, carriage return,
    the four separators 28..31 and the blank. *)
Definition is_space (c : ascii) : bool :=
  let n := nat_of_ascii c in
  ((9 <=? n) && (n <=? 13)) || ((28 <=? n) && (n <=? 32)).

(** [str.lower] on one character. *)
Definition lower_char (c : ascii) : ascii :=
  let n := nat_of_ascii c in
  if (65 <=? n) && (n <=? 90) then ascii_of_nat (n + 32) else c.

Definition lower (s : str) : str := map lower_char s.

Fixpoint drop_while (p : ascii -> bool) (s : str) : str :=
  match s with
  | [] => []
  | c :: r => if p c then drop_while p r else s
  end.

Definition lstrip_by (p : ascii -> bool) (s : str) : str := drop_while p s.

Definition rstrip_by (p : ascii -> bool) (s : str) : str :=
  rev (drop_while p (rev s)).

(** [s.strip()] *)
Definition strip (s : str) : str := rstrip_by is_space (lstrip_by is_space s).

(** [s.rstrip(chars)] *)
Definition rstrip (chars : str) (s : str) : str :=
  rstrip_by (fun c => char_in c chars) s.

(** [s.split()]: maximal runs of characters that are not white space.
    [cur] is the run being read, last character first. *)
Fixpoint split_from (cur : str) (s : str) : list str :=
  match s with
  | [] => match cur with [] => [] | _ => [rev cur] end
  | c :: r =>
      if is_space c
      then match cur with
           | [] => split_from [] r
           | _ => rev cur :: split_from [] r
           end
      else split_from (c :: cur) r
  end.

Definition split (s : str) : list str := split_from [] s.

(** [s.startswith(p)] *)
Fixpoint startswith (s p : str) : bool :=
  match p, s with
  | [], _ => true
  | _ :: _, [] => false
  | a :: p', b :: s' => Ascii.eqb a b && startswith s' p'
  end.

(** [s.endswith(p)] *)
Definition endswith (s p : str) : bool := startswith (rev s) (rev p).

(** [sub in s] on strings. *)
Fixpoint contains (sub s : str) : bool :=
  startswith s sub ||
  match s with
  | [] => false
  | _ :: r => contains sub r
  end.

(** [set(xs)]: the distinct elements (kept in a list without repeats). *)
Definition to_set (xs : list str) : list str := nodup str_eq_dec xs.

(** [a & b] and [a - b] on sets. *)
Definition inter (a b : list str) : list str := filter (fun x => mem x b) a.
Definition diff (a b : list str) : list str := filter (fun x => negb (mem x b)) a.

(** Exceptions of the modelled code. *)
Inductive error : Type :=
| ZeroDivisionError
| TimeoutError                (* asyncio.TimeoutError *)
| AttributeError              (* a method called on None *)
| Exception (msg : str).

Inductive exc (A : Type) : Type :=
| Ok (a : A)
| Raise (e : error).
Arguments Ok {A} a.
Arguments Raise {A} e.

Definition bind {A B} (m : exc A) (k : A -> exc B) : exc B :=
  match m with
  | Ok a => k a
  | Raise e => Raise e
  end.

(** [a / b] on two lengths: raises on a zero divisor. *)
Definition truediv (a b : nat) : exc Q :=
  match b with
  | O => Raise ZeroDivisionError
  | S _ => Ok (Qmake (Z.of_nat a) (Pos.of_nat b))
  end.

End Py.

Import Py.

Notation "x <- m ;; k" := (bind m (fun x => k))
  (at level 61, m at next level, right associativity).

(** ** Utterance classifier *)

Definition FAREWELL_PATTERNS : list str := map lit
  [ "bye"; "goodbye"; "see you"; "later"; "take care"; "night"; "good night";
    "gotta go"; "talk to you later"; "catch you later"; "i'm done"; "end call";
    "hang up"; "disconnect"; "that's all"; "thanks bye"; "thank you bye" ]%string.

Definition farewell_keywords : list str := map lit
  [ "bye"; "goodbye"; "goodnight"; "later"; "disconnect"; "hang up";
    "end call" ]%string.

(** [message.lower().strip().rstrip("!?.,:;")] *)
Definition normalize (message : str) : str :=
  rstrip (lit "!?.,:;") (strip (lower message)).

Definition is_farewell (message : str) : bool :=
  let msg := normalize message in
  if mem msg FAREWELL_PATTERNS then true
  else if existsb (fun pattern => startswith msg pattern || endswith msg pattern)
                  FAREWELL_PATTERNS then true
  else
    let words := to_set (split msg) in
    match inter words farewell_keywords with
    | _ :: _ => true
    | [] => false
    end.

Definition SIMPLE_CHAT_PATTERNS : list str := map lit
  [ "hi"; "hello"; "hey"; "howdy"; "hiya"; "yo";
    "good morning"; "good afternoon"; "good evening"; "good night";
    "bye"; "goodbye"; "see you"; "later"; "take care"; "night";
    "thanks"; "thank you"; "appreciate it"; "thx";
    "yes"; "no"; "yeah"; "yep"; "nope"; "sure"; "okay"; "ok"; "yup";
    "right"; "correct"; "got it"; "understood"; "alright"; "fine";
    "cool"; "nice"; "great"; "awesome"; "perfect"; "sounds good" ]%string.

Definition question_words : list str := map lit
  [ "what"; "where"; "when"; "who"; "why"; "how"; "which"; "check"; "find";
    "get"; "show"; "tell" ]%string.

(** The [for pattern in SIMPLE_CHAT_PATTERNS] loop: [Some b] is [return b]
    from inside the loop, [None] is the loop running to its end. *)
Fixpoint simple_prefix_loop (msg message : str) (patterns : list str)
  : option bool :=
  match patterns with
  | [] => None
  | pattern :: rest =>
      if startswith msg (pattern ++ lit " ") || startswith msg (pattern ++ lit ",")
      then if contains (lit " can ") msg || contains (lit " could ") msg
              || contains (lit " would ") msg || contains (lit "?") message
           then Some false
           else Some true
      else simple_prefix_loop msg message rest
  end.

Definition is_simple_chat (message : str) : bool :=
  let msg := normalize message in
  if mem msg SIMPLE_CHAT_PATTERNS then true
  else
    match simple_prefix_loop msg message SIMPLE_CHAT_PATTERNS with
    | Some b => b
    | None =>
        let words := split msg in
        if (length words <=? 2)
           && negb (existsb (fun w => mem w question_words) words)
           && negb (contains (lit "?") message)
        then true
        else false
    end.

Definition filler_words : list str := map lit
  [ "the"; "a"; "an"; "is"; "are"; "was"; "were"; "to"; "and"; "or"; "i";
    "you"; "it" ]%string.

(** [set(s.lower().split())] *)
Definition words_of (s : str) : list str := to_set (split (lower s)).

Definition meaningful (ws : list str) : list str := diff ws filler_words.

(** The [for bot_response in recent_bot_responses] loop of [is_echo]. *)
Fixpoint is_echo_loop (user_words : list str) (responses : list str)
  (threshold : Q) : exc bool :=
  match responses with
  | [] => Ok false
  | bot_response :: rest =>
      let bot_words := words_of bot_response in
      match bot_words with
      | [] => is_echo_loop user_words rest threshold
      | _ :: _ =>
          let common_words := inter user_words bot_words in
          let meaningful_common := meaningful common_words in
          let meaningful_user := meaningful user_words in
          if 0 <? length meaningful_user then
            overlap_ratio <- truediv (length meaningful_common)
                                     (length meaningful_user) ;;
            if Qle_bool threshold overlap_ratio then Ok true
            else is_echo_loop user_words rest threshold
          else is_echo_loop user_words rest threshold
      end
  end.

Definition is_echo (user_message : str) (recent_bot_responses : list str)
  (threshold : Q) : exc bool :=
  match recent_bot_responses with
  | [] => Ok false
  | _ :: _ =>
      let user_words := words_of user_message in
      if length user_words <? 2 then Ok false
      else is_echo_loop user_words recent_bot_responses threshold
  end.

(** ** Streaming sentence chunker

    The body of [async for chunk in gateway_client.stream_message(...)] and
    the flush after it, on [full_response], [text_buffer], [chunks_sent]. *)

Record Chunker : Type := mkChunker {
  full_response : str;
  text_buffer : str;
  chunks_sent : nat
}.

Definition chunker_init : Chunker := mkChunker [] [] 0.

(** Index of the first character satisfying [p]. *)
Fixpoint index_where (p : ascii -> bool) (s : str) : option nat :=
  match s with
  | [] => None
  | c :: r => if p c then Some 0 else option_map S (index_where p r)
  end.

(** How many leading characters satisfy [p]. *)
Fixpoint run_length (p : ascii -> bool) (s : str) : nat :=
  match s with
  | [] => 0
  | c :: r => if p c then S (run_length p r) else 0
  end.

Definition newline : ascii := ascii_of_nat 10.
Definition blank : ascii := ascii_of_nat 32.

(** [char in '.!?\n'] *)
Definition is_terminal (c : ascii) : bool := char_in c (lit ".!?" ++ [newline]).

(** [text_buffer[end_idx] in ' \n'] *)
Definition is_gap (c : ascii) : bool := char_in c [blank; newline].

(** The [for i, char in enumerate(text_buffer)] scan: the value of
    [end_idx] at the [break], if the loop breaks. *)
Definition sentence_end (text_buffer : str) : option nat :=
  match index_where is_terminal text_buffer with
  | None => None
  | Some i =>
      let end_idx := i + 1 in
      Some (end_idx + run_length is_gap (skipn end_idx text_buffer))
  end.

(** [s.rfind(c, 0, hi)] scanning from index [i]: the highest index below
    the end of [s] holding [c], or -1. *)
Fixpoint rfind_from (c : ascii) (i : nat) (s : str) : Z :=
  match s with
  | [] => (-1)%Z
  | x :: r =>
      let later := rfind_from c (S i) r in
      if (0 <=? later)%Z then later
      else if Ascii.eqb x c then Z.of_nat i else (-1)%Z
  end.

Definition rfind (c : ascii) (s : str) (hi : nat) : Z :=
  rfind_from c 0 (firstn hi s).

(** The end of the loop body:
    [if should_send and send_text.strip(): chunks_sent += 1; queue]. *)
Definition chunk_send (full_response text_buffer : str) (chunks_sent : nat)
  (should_send : bool) (send_text : str) : Chunker * list str :=
  if should_send && negb (Nat.eqb (length (strip send_text)) 0)
  then (mkChunker full_response text_buffer (S chunks_sent), [send_text])
  else (mkChunker full_response text_buffer chunks_sent, []).

(** One iteration of the loop body on a received [chunk]: the new
    variables and the text queued for speech, if any. *)
Definition chunk_step (k : Chunker) (chunk : str) : Chunker * list str :=
  let full_response := full_response k ++ chunk in
  let text_buffer := text_buffer k ++ chunk in
  let '(should_send, send_text, text_buffer) :=
    match sentence_end text_buffer with
    | Some end_idx => (true, firstn end_idx text_buffer, skipn end_idx text_buffer)
    | None =>
        if 150 <? length text_buffer then
          let break_point := rfind blank text_buffer 150 in
          if (50 <? break_point)%Z then
            let cut := Z.to_nat (break_point + 1) in
            (true, firstn cut text_buffer, skipn cut text_buffer)
          else (false, [], text_buffer)
        else (false, [], text_buffer)
    end in
  chunk_send full_response text_buffer (chunks_sent k) should_send send_text.

(** The flush after the loop: [if text_buffer.strip(): ...]. *)
Definition chunk_flush (k : Chunker) : Chunker * list str :=
  if negb (Nat.eqb (length (strip (text_buffer k))) 0)
  then (mkChunker (full_response k) (text_buffer k) (S (chunks_sent k)),
        [text_buffer k])
  else (k, []).

(** The loop over all the fragments of a stream. *)
Fixpoint chunk_all (k : Chunker) (chunks : list str) : Chunker * list str :=
  match chunks with
  | [] => (k, [])
  | chunk :: rest =>
      let '(k1, out1) := chunk_step k chunk in
      let '(k2, out2) := chunk_all k1 rest in
      (k2, out1 ++ out2)
  end.

(** A whole stream that ends normally: loop, then flush. *)
Definition chunk_stream (chunks : list str) : Chunker * list str :=
  let '(k1, out1) := chunk_all chunker_init chunks in
  let '(k2, out2) := chunk_flush k1 in
  (k2, out1 ++ out2).

(** ** Gateway protocol client: [connect] and [stream_message]

    A decoded JSON frame keeps the keys the reader looks at; [None] is an
    absent key.  The transport is taken to open. *)

Record Payload : Type := mkPayload {
  runId : option str;
  stream : option str;
  data_delta : option str;      (* payload["data"]["delta"] *)
  data_phase : option str;      (* payload["data"].get("phase") *)
  state : option str;
  errorMessage : option str
}.

Record Frame : Type := mkFrame {
  type : option str;
  id : option str;
  event : option str;
  ok : bool;                    (* truth value of frame.get("ok") *)
  payload : Payload;
  error_message : option str    (* frame["error"].get("message") *)
}.

Definition opt_is (o : option str) (x : string) : bool :=
  match o with
  | Some v => str_eqb v (lit x)
  | None => false
  end.

Definition opt_eqb (a b : option str) : bool :=
  match a, b with
  | Some x, Some y => str_eqb x y
  | None, None => true
  | _, _ => false
  end.

(** Truth value of [run_id]: set and not the empty string. *)
Definition truthy (o : option str) : bool :=
  match o with
  | Some (_ :: _) => true
  | _ => false
  end.

Definition get_or (o : option str) (default : string) : str :=
  match o with
  | Some v => v
  | None => lit default
  end.

(** [run_id and payload.get("runId") == run_id] *)
Definition correlated (run_id : option str) (p : Payload) : bool :=
  truthy run_id && opt_eqb (runId p) run_id.

(** What one pass of the [while True] body does after a frame is read. *)
Inductive control : Type :=
| Next (run_id : option str)
| Return
| Throw (e : error).

Definition handle_frame (request_id : str) (run_id : option str) (frame : Frame)
  : list str * control :=
  let after_res : exc (option str) :=
    if opt_is (type frame) "res" && opt_eqb (id frame) (Some request_id) then
      if ok frame then Ok (runId (payload frame))
      else Raise (Exception (lit "Chat request failed: "
                              ++ get_or (error_message frame) "Unknown error"))
    else Ok run_id in
  match after_res with
  | Raise e => ([], Throw e)
  | Ok run_id =>
      let yielded :=
        if opt_is (type frame) "event" && opt_is (event frame) "agent"
           && correlated run_id (payload frame)
           && opt_is (stream (payload frame)) "assistant"
        then match data_delta (payload frame) with
             | Some delta => [delta]
             | None => []
             end
        else [] in
      let ctl :=
        if opt_is (type frame) "event" && opt_is (event frame) "chat"
           && correlated run_id (payload frame)
        then
          if opt_is (state (payload frame)) "final" then Return
          else if opt_is (state (payload frame)) "aborted"
                  || opt_is (state (payload frame)) "error"
          then Throw (Exception (lit "Chat failed: "
                                  ++ get_or (errorMessage (payload frame))
                                            "Request failed"))
          else Next run_id
        else Next run_id in
      (yielded, ctl)
  end.

(** What [asyncio.wait_for(self.ws.recv(), timeout=120)] gives. *)
Inductive recv : Type :=
| Recv (frame : Frame)
| RecvTimeout.

(** How the generator stands after the frames delivered so far; a clock
    reading says when it ended. *)
Inductive outcome : Type :=
| Returned (at_time : Q)
| Raised (at_time : Q) (e : error)
| Waiting (run_id : option str).

(** The [while True] loop of [stream_message] over what is delivered, each
    item with the clock at its delivery: the deltas yielded (with the
    clock) and how the generator stands. *)
Fixpoint stream_loop (request_id : str) (run_id : option str)
  (inbox : list (Q * recv)) : list (Q * str) * outcome :=
  match inbox with
  | [] => ([], Waiting run_id)
  | (t, RecvTimeout) :: _ => ([], Raised t (Exception (lit "Gateway timeout")))
  | (t, Recv frame) :: rest =>
      let '(yielded, ctl) := handle_frame request_id run_id frame in
      let here := map (fun d => (t, d)) yielded in
      match ctl with
      | Next run_id' =>
          let '(more, out) := stream_loop request_id run_id' rest in
          (here ++ more, out)
      | Return => (here, Returned t)
      | Throw e => (here, Raised t e)
      end
  end.

(** *** [connect] *)

(** The connection attributes of the client: [self.ws] being set and
    [self.connected]. *)
Record Client : Type := mkClient {
  ws : bool;
  connected : bool
}.

(** How a call of [connect] ends. *)
Inductive handshake : Type :=
| HsAlready                 (* returned at once: connected before *)
| HsConnected               (* returned with [connected] set *)
| HsUnanswered              (* returned, [connected] still unset *)
| HsRejected (e : error)    (* raised: authentication failed *)
| HsTimeout                 (* raised: a read took more than 10 time units *)
| HsPending.                (* still reading *)

Definition is_challenge (frame : Frame) : bool :=
  opt_is (type frame) "event" && opt_is (event frame) "connect.challenge".

(** The read that follows the connect request. *)
Definition connect_response (inbox : list recv) : handshake :=
  match inbox with
  | [] => HsPending
  | RecvTimeout :: _ => HsTimeout
  | Recv res_frame :: _ =>
      if opt_is (type res_frame) "res" && opt_is (id res_frame) "connect-1" then
        if ok res_frame then HsConnected
        else HsRejected (Exception (lit "Authentication failed: "
                                     ++ get_or (error_message res_frame)
                                               "Unknown error"))
      else HsUnanswered
  end.

(** The [while not challenge_received] loop. *)
Fixpoint connect_loop (inbox : list recv) : handshake :=
  match inbox with
  | [] => HsPending
  | RecvTimeout :: _ => HsTimeout
  | Recv frame :: rest =>
      if is_challenge frame then connect_response rest
      else connect_loop rest
  end.

(** [connect] on a transport that opens: the client afterwards and how
    the call ended. *)
Definition connect (c : Client) (inbox : list recv) : Client * handshake :=
  if connected c && ws c then (c, HsAlready)
  else
    let h := connect_loop inbox in
    (mkClient true (match h with HsConnected => true | _ => connected c end), h).

(** The reads of [connect] on a socket that delivers [inbox], each item
    with its clock: how the handshake ends, the clock of the last read
    ([now] if nothing is read) and the items left unread. *)
Definition connect_response_at (now : Q) (inbox : list (Q * recv))
  : handshake * (Q * list (Q * recv)) :=
  match inbox with
  | [] => (HsPending, (now, []))
  | (t, r) :: rest => (connect_response [r], (t, rest))
  end.

Fixpoint connect_loop_at (now : Q) (inbox : list (Q * recv))
  : handshake * (Q * list (Q * recv)) :=
  match inbox with
  | [] => (HsPending, (now, []))
  | (t, RecvTimeout) :: rest => (HsTimeout, (t, rest))
  | (t, Recv frame) :: rest =>
      if is_challenge frame then connect_response_at t rest
      else connect_loop_at t rest
  end.

(** [connect] called at clock [now] on that socket. *)
Definition connect_at (c : Client) (now : Q) (inbox : list (Q * recv))
  : (Client * handshake) * (Q * list (Q * recv)) :=
  if connected c && ws c then ((c, HsAlready), (now, inbox))
  else
    let '(h, unread) := connect_loop_at now inbox in
    ((mkClient true (match h with HsConnected => true | _ => connected c end),
      h), unread).

(** *** [stream_message] *)

Definition decimal (n : nat) : str :=
  lit (DecimalString.NilEmpty.string_of_uint (Nat.to_uint n)).

(** [stream_message] from the request on (lines after the call of
    [connect]): the counter is raised, the request is sent on [self.ws]
    (an attribute error when it is unset) and the loop runs. *)
Definition stream_request (c : Client) (request_counter : nat) (now : Q)
  (inbox : list (Q * recv)) : (Client * nat) * (list (Q * str) * outcome) :=
  let request_counter := request_counter + 1 in
  let request_id := lit "chat-" ++ decimal request_counter in
  if ws c then ((c, request_counter), stream_loop request_id None inbox)
  else ((c, request_counter), ([], Raised now AttributeError)).

(** [stream_message] called at clock [now] on client [c] whose counter
    is [request_counter]: the client and the counter afterwards, the
    deltas yielded and how the generator stands.  A client that is not
    connected runs [connect] first; what [connect] raises leaves through
    the generator before the counter is touched. *)
Definition stream_message (c : Client) (request_counter : nat) (now : Q)
  (inbox : list (Q * recv)) : (Client * nat) * (list (Q * str) * outcome) :=
  if connected c then stream_request c request_counter now inbox
  else
    let '((c', h), (t, unread)) := connect_at c now inbox in
    match h with
    | HsRejected e => ((c', request_counter), ([], Raised t e))
    | HsTimeout => ((c', request_counter), ([], Raised t TimeoutError))
    | HsPending => ((c', request_counter), ([], Waiting None))
    | HsAlready | HsConnected | HsUnanswered =>
        stream_request c' request_counter t unread
    end.

(** ** Turn arbitrator: [intercept_and_forward]

    The closure variables of the interceptor, with the request counter of
    the gateway client. *)

Definition IMMEDIATE_PHRASES : list str := map lit
  [ "Let me check on that."; "Looking into that now."; "On it."; "Let me see.";
    "Checking now." ]%string.

Definition FILLER_PHRASES : list str := map lit
  [ "Still working on that..."; "One moment..."; "Just a sec...";
    "Give me a moment..."; "Hang on..."; "Almost there...";
    "Still on it..." ]%string.

Record ArbState : Type := mkArb {
  recent_immediate : list str;
  recent_fillers : list str;
  recent_bot_responses : list str;
  last_bot_speech_end : Q;
  bot_is_speaking : bool;
  last_processed_message : str;
  processing_in_progress : bool;
  request_counter : nat;      (* gateway_client.request_counter *)
  client : Client             (* gateway_client.ws and .connected *)
}.

(** The variables as the interceptor is installed: nothing recorded,
    the client not yet connected. *)
Definition arb_init : ArbState :=
  mkArb [] [] [] 0%Q false [] false 0 (mkClient false false).

(** The same with a client that has connected. *)
Definition arb_online : ArbState :=
  mkArb [] [] [] 0%Q false [] false 0 (mkClient true true).

Definition set_speaking (st : ArbState) (b : bool) : ArbState :=
  mkArb (recent_immediate st) (recent_fillers st) (recent_bot_responses st)
        (last_bot_speech_end st) b (last_processed_message st)
        (processing_in_progress st) (request_counter st) (client st).

Definition start_processing (st : ArbState) (user_message : str) : ArbState :=
  mkArb (recent_immediate st) (recent_fillers st) (recent_bot_responses st)
        (last_bot_speech_end st) (bot_is_speaking st) user_message
        true (request_counter st) (client st).

(** What the interceptor sends to its collaborators. *)
Inductive Event : Type :=
| TTSSpeak (text : str)              (* task.queue_frame(TTSSpeakFrame(text)) *)
| EndCall                            (* task.queue_frame(EndFrame()) *)
| StartInterruption                  (* task.queue_frame(StartInterruptionFrame()) *)
| PostTranscript (role text : str)   (* post_transcript(call_id, role, text) *)
| GatewaySend (message : str)        (* gateway_client.stream_message(message) *)
| PassToLLM.                         (* original_push(frame) *)

Definition Qlt_bool (a b : Q) : bool := negb (Qle_bool b a).

Inductive gate_result : Type :=
| Dropped (st : ArbState)     (* [return] before the turn starts *)
| Accepted (st : ArbState).   (* the turn starts *)

(** The checks at the head of the interceptor, [now] being [time.time()]
    at the cooldown check. *)
Definition gate (st : ArbState) (user_message : str) (now : Q)
  : exc gate_result :=
  if str_eqb user_message (last_processed_message st) then Ok (Dropped st)
  else if processing_in_progress st then Ok (Dropped st)
  else
    after_speech <-
      (if bot_is_speaking st then
         echo <- is_echo user_message (recent_bot_responses st) (3 # 10)%Q ;;
         Ok (if echo then None else Some (set_speaking st false))
       else Ok (Some st)) ;;
    match after_speech with
    | None => Ok (Dropped st)
    | Some st1 =>
        let time_since_bot := (now - last_bot_speech_end st1)%Q in
        if Qlt_bool time_since_bot 1%Q then Ok (Dropped st1)
        else
          echo <- is_echo user_message (recent_bot_responses st1) (4 # 10)%Q ;;
          if echo then Ok (Dropped st1)
          else Ok (Accepted (start_processing st1 user_message))
    end.

(** What the surroundings decide during one turn. *)
Record TurnEnv : Type := mkEnv {
  now_gate : Q;               (* time.time() at the cooldown check *)
  t_tasks : Q;                (* clock when the two timer tasks are created *)
  inbox : list (Q * recv);    (* what the socket delivers, with the clock *)
  t_posted : Q;               (* clock when the assistant transcript is posted *)
  pick_ack : nat;             (* outcome of random.choice in the first timer *)
  pick_filler : nat           (* outcome of random.choice in the second timer *)
}.

(** [random.choice(xs)] with the draw [pick]. *)
Definition choice (pick : nat) (xs : list str) : str :=
  nth (pick mod length xs) xs [].

(** Pick a phrase not spoken recently and remember it, keeping [cap]. *)
Definition rotate (phrases recent : list str) (cap pick : nat)
  : str * list str :=
  let available := filter (fun p => negb (mem p recent)) phrases in
  let '(recent, available) :=
    match available with
    | [] => ([], phrases)
    | _ :: _ => (recent, available)
    end in
  let phrase := choice pick available in
  let recent := recent ++ [phrase] in
  (phrase, if cap <? length recent then tl recent else recent).

(** Clock of the first thing the stream does: its first delta, or else
    its end. *)
Definition first_activity (deltas : list (Q * str)) (out : outcome)
  : option Q :=
  match deltas with
  | (t, _) :: _ => Some t
  | [] =>
      match out with
      | Returned t => Some t
      | Raised t _ => Some t
      | Waiting _ => None
      end
  end.

(** A timer task that wakes at [fire_at] speaks when it is not cancelled
    and [first_chunk_received] is not set by then. *)
Definition fires (fire_at : Q) (deltas : list (Q * str)) (out : outcome)
  : bool :=
  match first_activity deltas out with
  | Some t => Qlt_bool fire_at t
  | None => true
  end.

(** The loop over the deltas, each chunk queued at the clock of the delta
    that completes it. *)
Fixpoint chunk_timed (k : Chunker) (deltas : list (Q * str))
  : Chunker * list (Q * Event) :=
  match deltas with
  | [] => (k, [])
  | (t, chunk) :: rest =>
      let '(k1, out1) := chunk_step k chunk in
      let '(k2, out2) := chunk_timed k1 rest in
      (k2, map (fun x => (t, TTSSpeak x)) out1 ++ out2)
  end.

(** [recent_bot_responses.append(x)], keeping the last three. *)
Definition remember (recent : list str) (x : str) : list str :=
  let recent := recent ++ [x] in
  if 3 <? length recent then tl recent else recent.

(** [len(full_response) / 15] *)
Definition estimated_tts_duration (full : str) : Q :=
  (inject_Z (Z.of_nat (length full)) / 15)%Q.

(** One of the two timer tasks of a turn, created only when the
    utterance is not simple chat: it wakes at [fire_at] and, if it is to
    speak, picks a phrase with its rotation. *)
Definition timer_task (simple_chat : bool) (fire_at : Q)
  (deltas : list (Q * str)) (out : outcome)
  (phrases recent : list str) (cap pick : nat)
  : list (Q * Event) * list str :=
  if negb simple_chat && fires fire_at deltas out then
    let '(phrase, recent) := rotate phrases recent cap pick in
    ([(fire_at, TTSSpeak phrase)], recent)
  else ([], recent).

(** The turn once the gate is passed.  The state is the one the gate left
    ([processing_in_progress] set).  [asyncio.sleep(d)] started at clock
    [t] ends at [t + d]; both timer tasks are created at [t_tasks]. *)
Definition process_turn (st : ArbState) (user_message : str) (env : TurnEnv)
  : list (Q * Event) * ArbState :=
  let simple_chat := is_simple_chat user_message in
  let t0 := t_tasks env in
  let '((gateway, counter), (deltas, out)) :=
    stream_message (client st) (request_counter st) t0 (inbox env) in
  let '(ack_events, immediate) :=
    timer_task simple_chat (t0 + 3)%Q deltas out
               IMMEDIATE_PHRASES (recent_immediate st) 3 (pick_ack env) in
  let '(filler_events, fillers) :=
    timer_task simple_chat (t0 + 4)%Q deltas out
               FILLER_PHRASES (recent_fillers st) 4 (pick_filler env) in
  let '(k, spoken) := chunk_timed chunker_init deltas in
  let head :=
    (now_gate env, PostTranscript (lit "user") user_message)
    :: (t0, GatewaySend user_message)
    :: ack_events ++ filler_events ++ spoken in
  match out with
  | Waiting _ =>
      (head,
       mkArb immediate fillers (recent_bot_responses st)
             (last_bot_speech_end st)
             (match deltas with [] => bot_is_speaking st | _ :: _ => true end)
             (last_processed_message st) true counter gateway)
  | Raised t _ =>
      (head ++ [(t, PassToLLM)],
       mkArb immediate fillers (recent_bot_responses st)
             (last_bot_speech_end st) false
             (last_processed_message st) false counter gateway)
  | Returned t =>
      let '(k, flushed) := chunk_flush k in
      let head := head ++ map (fun x => (t, TTSSpeak x)) flushed in
      if Nat.eqb (chunks_sent k) 0
         || Nat.eqb (length (strip (full_response k))) 0
      then
        (head ++ [(t, PassToLLM)],
         mkArb immediate fillers (recent_bot_responses st)
               (last_bot_speech_end st) false
               (last_processed_message st) false counter gateway)
      else
        (head
         ++ [(t, PostTranscript (lit "assistant") (full_response k))]
         ++ (if is_farewell user_message
             then [((t_posted env + 3)%Q, EndCall)] else []),
         mkArb immediate fillers
               (remember (recent_bot_responses st) (full_response k))
               (t + estimated_tts_duration (full_response k))%Q false
               (last_processed_message st) false counter gateway)
  end.

(** A frame pushed through the user aggregator. *)
Inductive PipeFrame : Type :=
| LLMMessagesFrame (messages : list (str * str))   (* role, content *)
| OtherFrame.

Definition intercept_and_forward (st : ArbState) (frame : PipeFrame)
  (env : TurnEnv) : exc (list (Q * Event) * ArbState) :=
  let pass := Ok ([(now_gate env, PassToLLM)], st) in
  match frame with
  | OtherFrame => pass
  | LLMMessagesFrame messages =>
      match rev messages with
      | [] => pass
      | (role, user_message) :: _ =>
          if str_eqb role (lit "user") then
            g <- gate st user_message (now_gate env) ;;
            match g with
            | Dropped st' => Ok ([], st')
            | Accepted st' => Ok (process_turn st' user_message env)
            end
          else pass
      end
  end.

(** ** Client messages: [on_app_message] *)

Inductive AppMessage : Type :=
| AppDict (data_t top_type top_label : option str)
| AppStr (s : str)
| AppOther.

Definition app_msg_type (message : AppMessage) : option str :=
  match message with
  | AppDict data_t top_type top_label =>
      if truthy data_t then data_t
      else if truthy top_type then top_type else top_label
  | AppStr s => Some s
  | AppOther => None
  end.

Definition on_app_message (message : AppMessage) : list Event :=
  if opt_is (app_msg_type message) "user-started-speaking"
  then [StartInterruption] else [].

(** ** Vocabulary of the properties *)

(** The last character of [t] is white space. *)
Definition trailing_space (t : str) : bool :=
  match rev t with
  | [] => false
  | c :: _ => is_space c
  end.

(** The ratio of the claim for one response: shared words that are not
    filler words over the candidate's words that are not filler words; 0
    when the candidate has no such word. *)
Definition overlap_ratio (candidate response : str) : Q :=
  let user_words := words_of candidate in
  match length (meaningful user_words) with
  | O => 0%Q
  | S _ as n =>
      Qmake (Z.of_nat (length (meaningful (inter user_words (words_of response)))))
            (Pos.of_nat n)
  end.

(** The larger of two rationals. *)
Definition qmax (a b : Q) : Q := if Qle_bool a b then b else a.

Fixpoint max_from (best : Q) (rest : list Q) : Q :=
  match rest with
  | [] => best
  | x :: r => max_from (qmax best x) r
  end.

(** The largest ratio over the recent responses (0 for none). *)
Definition max_ratio (candidate : str) (recent : list str) : Q :=
  match map (overlap_ratio candidate) recent with
  | [] => 0%Q
  | x :: r => max_from x r
  end.

(** A fragment of 200 characters whose only blank is at offset [n]. *)
Definition fragment_space_at (n : nat) : str :=
  repeat "a"%char n ++ [blank] ++ repeat "b"%char (199 - n).

Definition is_event (frame : Frame) (name : string) : bool :=
  opt_is (type frame) "event" && opt_is (event frame) name.




(** Every character still buffered was received, and once a chunk was
    queued the response holds a character that is not white space. *)
Definition chunker_inv (k : Chunker) : Prop :=
  (forall c, In c (text_buffer k) -> In c (full_response k)) /\
  (0 < chunks_sent k ->
   exists c, In c (full_response k) /\ is_space c = false).

(** The chunker state when a stream that yielded [deltas] has ended
    normally and the buffer is flushed. *)
Definition chunker_at_end (deltas : list (Q * str)) : Chunker :=
  fst (chunk_flush (fst (chunk_timed chunker_init deltas))).

(** Events other than ending the call and interrupting playback. *)
Definition plain (e : Event) : bool :=
  match e with
  | EndCall | StartInterruption => false
  | _ => true
  end.

Definition all_plain (events : list (Q * Event)) : Prop :=
  forall te, In te events -> plain (snd te) = true.

(** Frames of a gateway that accepts a request ("res"), streams text
    ("agent" event of the assistant stream) and reports on the run
    ("chat" event). *)
Definition frame_res (request_id run : string) : Frame :=
  mkFrame (Some (lit "res")) (Some (lit request_id)) None true
          (mkPayload (Some (lit run)) None None None None None) None.

Definition frame_delta (run text : string) : Frame :=
  mkFrame (Some (lit "event")) None (Some (lit "agent")) false
          (mkPayload (Some (lit run)) (Some (lit "assistant"))
                     (Some (lit text)) None None None) None.

Definition frame_chat (run state : string) : Frame :=
  mkFrame (Some (lit "event")) None (Some (lit "chat")) false
          (mkPayload (Some (lit run)) None None None (Some (lit state)) None)
          None.

(** A gateway that, asked at clock [t], accepts the request as run "r1",
    streams [text] as one delta and ends the run. *)
Definition answering (request_id text : string) (t : Q) : list (Q * recv) :=
  [ ((t + 1)%Q, Recv (frame_res request_id "r1"));
    ((t + 2)%Q, Recv (frame_delta "r1" text));
    ((t + 3)%Q, Recv (frame_chat "r1" "final")) ].

(** A character that is not white space, once received, is in a queued
    chunk or still in the buffer. *)
Definition chunker_keeps (k : Chunker) : Prop :=
  (exists c, In c (full_response k) /\ is_space c = false) ->
  0 < chunks_sent k \/
  exists c, In c (text_buffer k) /\ is_space c = false.

Definition is_end_call (e : Event) : bool :=
  match e with
  | EndCall => true
  | _ => false
  end.

(** The call-termination events among [events], in order. *)
Definition end_calls (events : list (Q * Event)) : list (Q * Event) :=
  filter (fun te => is_end_call (snd te)) events.

(** ** Vocabulary of the further properties *)

(** [chars] all belong to the marks cut by [rstrip("!?.,:;")]. *)
Definition all_marks (chars : str) : bool :=
  forallb (fun c => char_in c (lit "!?.,:;")) chars.

(** The characters of [s] that are not white space, in order. *)
Definition speakable (s : str) : str :=
  filter (fun c => negb (is_space c)) s.

(** A frame a read delivers that is an event. *)
Definition event_frame (r : recv) : bool :=
  match r with
  | Recv frame => opt_is (type frame) "event"
  | RecvTimeout => false
  end.

(** An event frame that is not for the run in hand. *)
Definition stray_event (run_id : option str) (r : recv) : bool :=
  match r with
  | Recv frame =>
      opt_is (type frame) "event" && negb (correlated run_id (payload frame))
  | RecvTimeout => false
  end.

(** A frame that is not the challenge, read without a timeout. *)
Definition before_challenge (r : recv) : bool :=
  match r with
  | Recv frame => negb (is_challenge frame)
  | RecvTimeout => false
  end.

(** The positive answer to the connect request. *)
Definition connect_ok (frame : Frame) : bool :=
  opt_is (type frame) "res" && opt_is (id frame) "connect-1" && ok frame.

(** The recent responses the arbitrator may hold: at most three, each
    with something to say. *)
Definition recent_ok (recent : list str) : Prop :=
  length recent <= 3 /\ forall r, In r recent -> strip r <> [].

(** The texts queued for speech among [events], in order. *)
Definition spoken_texts (events : list (Q * Event)) : list str :=
  flat_map (fun te => match snd te with TTSSpeak x => [x] | _ => [] end) events.

Definition is_pass (e : Event) : bool :=
  match e with
  | PassToLLM => true
  | _ => false
  end.

(** The challenge a gateway opens with. *)
Definition frame_challenge : Frame :=
  mkFrame (Some (lit "event")) None (Some (lit "connect.challenge")) false
          (mkPayload None None None None None None) None.

(** The positive answer to the connect request. *)
Definition frame_connected : Frame :=
  mkFrame (Some (lit "res")) (Some (lit "connect-1")) None true
          (mkPayload None None None None None None) None.

(** A gateway that challenges and accepts the client at clock [t]. *)
Definition greeting (t : Q) : list (Q * recv) :=
  [(t, Recv frame_challenge); (t, Recv frame_connected)].

(** What a turn queues once the loop over the deltas is over, by the way
    the stream ended: the flushed chunk and then either the hand-over to
    the local model or the assistant transcript and, after a farewell,
    the end of the call. *)
Definition turn_tail (user_message : str) (env : TurnEnv)
  (deltas : list (Q * str)) (out : outcome) : list (Q * Event) :=
  match out with
  | Waiting _ => []
  | Raised t _ => [(t, PassToLLM)]
  | Returned t =>
      let '(k, flushed) := chunk_flush (fst (chunk_timed chunker_init deltas)) in
      map (fun x => (t, TTSSpeak x)) flushed
      ++ (if Nat.eqb (chunks_sent k) 0
             || Nat.eqb (length (strip (full_response k))) 0
          then [(t, PassToLLM)]
          else [(t, PostTranscript (lit "assistant") (full_response k))]
               ++ (if is_farewell user_message
                   then [((t_posted env + 3)%Q, EndCall)] else []))
  end.

Definition is_speak (e : Event) : bool :=
  match e with
  | TTSSpeak _ => true
  | _ => false
  end.

(** The hand-over events among [events]. *)
Definition passes (events : list (Q * Event)) : list (Q * Event) :=
  filter (fun te => is_pass (snd te)) events.

(** The speaking flag is set only while a turn is being processed. *)
Definition speaking_guarded (st : ArbState) : Prop :=
  bot_is_speaking st = true -> processing_in_progress st = true.

(** A gateway that, asked at clock [t], accepts the request as run "r1"
    and has streamed [text] so far. *)
Definition streaming (request_id text : string) (t : Q) : list (Q * recv) :=
  [ ((t + 1)%Q, Recv (frame_res request_id "r1"));
    ((t + 2)%Q, Recv (frame_delta "r1" text)) ].

(** * Properties *)

(** ** Sample runs *)

Example farewell_good_night : is_farewell (lit "Good night!") = true.
Proof. reflexivity. Qed.

Example farewell_calendar : is_farewell (lit "what's my calendar today") = false.
Proof. reflexivity. Qed.

Example simple_chat_hello_there : is_simple_chat (lit "hello there") = true.
Proof. reflexivity. Qed.

Example simple_chat_question :
  is_simple_chat (lit "hey can you check my mail") = false.
Proof. reflexivity. Qed.

Example echo_single_word :
  is_echo (lit "ok") [lit "ok then"] (3 # 10) = Ok false.
Proof. reflexivity. Qed.

Example echo_overlap :
  is_echo (lit "your meeting starts") [lit "Your meeting starts at noon."]
          (3 # 10)
  = Ok true.
Proof. reflexivity. Qed.

Example chunk_two_sentences :
  snd (chunk_stream [lit "Hello there. How are you?"])
  = [lit "Hello there. "; lit "How are you?"].
Proof. reflexivity. Qed.

Example stream_one_delta :
  snd (stream_message (mkClient true true) 0 0 (answering "chat-1" "Done." 0))
  = ([(2%Q, lit "Done.")], Returned 3%Q).
Proof. vm_compute. reflexivity. Qed.


(** ** Text primitives *)

Section DropWhile.

Variable p : ascii -> bool.

Lemma drop_while_stop (x z : str) (c : ascii) :
  p c = false ->
  drop_while p (x ++ c :: z) = drop_while p x ++ c :: z.
Proof.
  intros Hc. induction x as [|a x IH]; simpl.
  - now rewrite Hc.
  - destruct (p a); [exact IH | reflexivity].
Qed.

Lemma rstrip_by_snoc_drop (s : str) (c : ascii) :
  p c = true -> rstrip_by p (s ++ [c]) = rstrip_by p s.
Proof.
  intros Hc. unfold rstrip_by. rewrite rev_app_distr. simpl.
  now rewrite Hc.
Qed.

Lemma rstrip_by_snoc_keep (s : str) (c : ascii) :
  p c = false -> rstrip_by p (s ++ [c]) = s ++ [c].
Proof.
  intros Hc. unfold rstrip_by. rewrite rev_app_distr. simpl.
  rewrite Hc. simpl. now rewrite rev_involutive.
Qed.

Lemma drop_while_nil_all (s : str) :
  drop_while p s = [] -> forall c, In c s -> p c = true.
Proof.
  induction s as [|a s IH]; simpl; [tauto|].
  destruct (p a) eqn:Ha; [|discriminate].
  intros H c [<-|Hin]; auto.
Qed.

End DropWhile.

Lemma is_space_lower_char (c : ascii) : is_space (lower_char c) = is_space c.
Proof.
  destruct c as [[] [] [] [] [] [] [] []]; reflexivity.
Qed.

Lemma lower_app (a b : str) : lower (a ++ b) = lower a ++ lower b.
Proof. apply map_app. Qed.

Lemma normalize_bang (t : str) :
  trailing_space t = false -> normalize (t ++ lit "!") = normalize t.
Proof.
  unfold trailing_space. intros H.
  destruct (rev t) as [|c r] eqn:E.
  - apply (f_equal (@rev ascii)) in E. rewrite rev_involutive in E.
    subst t. reflexivity.
  - apply (f_equal (@rev ascii)) in E. rewrite rev_involutive in E.
    simpl in E. subst t.
    assert (Hc : is_space (lower_char c) = false)
      by now rewrite is_space_lower_char.
    unfold normalize, strip, lstrip_by, rstrip.
    rewrite !lower_app. simpl lower. rewrite <- app_assoc. simpl app.
    rewrite !drop_while_stop by exact Hc.
    set (y := drop_while is_space (lower (rev r))).
    change (y ++ [lower_char c; lower_char "!"])
      with (y ++ [lower_char c] ++ ["!"%char]).
    rewrite (app_assoc y).
    rewrite (rstrip_by_snoc_keep is_space (y ++ [lower_char c])) by reflexivity.
    rewrite (rstrip_by_snoc_keep is_space y) by exact Hc.
    now rewrite rstrip_by_snoc_drop by reflexivity.
Qed.

(** ** C9: a trailing exclamation mark and the farewell test *)

(** C9, as stated, fails: after "ok night " the mark is cut but the blank
    before it stays, so the text no longer ends with "night". *)
Lemma C9_farewell_bang_counterexample :
  is_farewell (lit "ok night ") = true /\
  is_farewell (lit "ok night " ++ lit "!") = false.
Proof. split; reflexivity. Qed.

(** C9, amended: for every text [t] that does not end in white space,
    [is_farewell t] equals [is_farewell (t ++ "!")]. *)
Theorem C9_farewell_bang (t : str) :
  trailing_space t = false ->
  is_farewell (t ++ lit "!") = is_farewell t.
Proof.
  intros H. unfold is_farewell. now rewrite (normalize_bang t H).
Qed.

Lemma C9_farewell_bang_witness :
  trailing_space (lit "Good night") = false /\
  is_farewell (lit "Good night" ++ lit "!") = is_farewell (lit "Good night").
Proof.
  split; [reflexivity | apply (C9_farewell_bang (lit "Good night")); reflexivity].
Defined.

(** ** The echo test *)

Lemma truediv_pos (a b : nat) :
  0 < b -> truediv a b = Ok (Qmake (Z.of_nat a) (Pos.of_nat b)).
Proof. destruct b; [lia | reflexivity]. Qed.

Lemma is_echo_loop_returns (user_words responses : list str) (t : Q) :
  exists b, is_echo_loop user_words responses t = Ok b.
Proof.
  induction responses as [|r rest IH]; simpl.
  - now exists false.
  - destruct (words_of r); [exact IH|].
    destruct (0 <? length (meaningful user_words)) eqn:E; [|exact IH].
    apply Nat.ltb_lt in E. rewrite truediv_pos by exact E. simpl.
    destruct (Qle_bool t _); [now exists true | exact IH].
Qed.

Lemma is_echo_loop_meaningless (user_words responses : list str) (t : Q) :
  meaningful user_words = [] ->
  is_echo_loop user_words responses t = Ok false.
Proof.
  intros H. induction responses as [|r rest IH]; simpl; [reflexivity|].
  rewrite H. simpl. destruct (words_of r); exact IH.
Qed.

(** ** C10: the classifier functions return on every input *)

(** C10: [is_farewell] and [is_simple_chat] use no operation that can
    raise on a string and return a truth value on every text; [is_echo],
    whose division raises on a zero divisor, returns a truth value on
    every text, list of responses and threshold; when every word of the
    text is a filler word each response is skipped and the answer is
    [False]; and on the empty text the three return. *)
Theorem C10_classifiers_total (message : str) (recent : list str) (t : Q) :
  (exists b, is_farewell message = b) /\
  (exists b, is_simple_chat message = b) /\
  (exists b, is_echo message recent t = Ok b /\
             (meaningful (words_of message) = [] -> b = false)) /\
  is_farewell [] = false /\ is_simple_chat [] = true /\
  is_echo [] recent t = Ok false.
Proof.
  split; [eexists; reflexivity|].
  split; [eexists; reflexivity|].
  split.
  - unfold is_echo. destruct recent as [|r rest].
    + exists false. auto.
    + destruct (length (words_of message) <? 2).
      * exists false. auto.
      * destruct (is_echo_loop_returns (words_of message) (r :: rest) t)
          as [b Hb].
        exists b. split; [exact Hb|].
        intros Hm. rewrite is_echo_loop_meaningless in Hb by exact Hm.
        congruence.
  - repeat split; try reflexivity. destruct recent; reflexivity.
Qed.

(** ** C5: the echo test against the largest overlap ratio *)

Lemma Qle_bool_qmax (t a b : Q) :
  Qle_bool t (qmax a b) = Qle_bool t a || Qle_bool t b.
Proof.
  unfold qmax. destruct (Qle_bool a b) eqn:Eab.
  - destruct (Qle_bool t a) eqn:Eta; [|reflexivity]. simpl.
    apply Qle_bool_iff. apply Qle_bool_iff in Eab, Eta.
    now apply Qle_trans with a.
  - destruct (Qle_bool t b) eqn:Etb; [|now rewrite orb_false_r].
    rewrite orb_true_r. apply Qle_bool_iff. apply Qle_bool_iff in Etb.
    apply Qle_trans with b; [exact Etb|].
    apply Qlt_le_weak, Qnot_le_lt. intros Hab.
    apply Qle_bool_iff in Hab. congruence.
Qed.

Lemma Qle_bool_max_from (t best : Q) (rest : list Q) :
  Qle_bool t (max_from best rest)
  = Qle_bool t best || existsb (Qle_bool t) rest.
Proof.
  revert best. induction rest as [|x r IH]; intros best; simpl.
  - now rewrite orb_false_r.
  - rewrite IH, Qle_bool_qmax. now rewrite orb_assoc.
Qed.

Lemma Qle_bool_zero_num (t : Q) (d : positive) :
  (0 < t)%Q -> Qle_bool t (Qmake 0 d) = false.
Proof.
  intros Ht. destruct (Qle_bool t (Qmake 0 d)) eqn:E; [|reflexivity].
  apply Qle_bool_iff in E. exfalso.
  apply (Qlt_irrefl 0). apply Qlt_le_trans with t; [exact Ht|].
  apply Qle_trans with (Qmake 0 d); [exact E|].
  unfold Qle. simpl. lia.
Qed.

Lemma Qle_bool_zero (t : Q) : (0 < t)%Q -> Qle_bool t 0%Q = false.
Proof. apply Qle_bool_zero_num. Qed.

Lemma existsb_over_map {A B} (f : B -> bool) (g : A -> B) (l : list A) :
  existsb f (map g l) = existsb (fun x => f (g x)) l.
Proof. induction l as [|x l IH]; simpl; [reflexivity | now rewrite IH]. Qed.

Lemma inter_nil_r (a : list str) : inter a [] = [].
Proof. induction a as [|x a IH]; [reflexivity | exact IH]. Qed.

Lemma is_echo_loop_exists (user_words responses : list str) (t : Q)
  (candidate : str) :
  user_words = words_of candidate -> (0 < t)%Q ->
  is_echo_loop user_words responses t
  = Ok (existsb (fun r => Qle_bool t (overlap_ratio candidate r)) responses).
Proof.
  intros -> Ht. induction responses as [|r rest IH]; simpl; [reflexivity|].
  unfold overlap_ratio at 1.
  destruct (words_of r) as [|w ws] eqn:Ew.
  - rewrite IH.
    destruct (length (meaningful (words_of candidate))) as [|n];
      [now rewrite Qle_bool_zero|].
    rewrite inter_nil_r. simpl length. now rewrite Qle_bool_zero_num.
  - destruct (length (meaningful (words_of candidate))) as [|n] eqn:En.
    + simpl. rewrite Qle_bool_zero by exact Ht. exact IH.
    + simpl Nat.ltb. cbv iota. rewrite truediv_pos by lia. simpl bind.
      destruct (Qle_bool t _); [reflexivity | exact IH].
Qed.

(** C5, as stated, fails in two ways.  A text of two words that are the
    same word has one distinct word and is never an echo, whatever the
    ratio; and with a threshold of 0 a response without words has ratio
    0 >= 0 but is skipped. *)
Lemma C5_is_echo_counterexample :
  (2 <= length (split (lower (lit "hello hello"))) /\
   Qle_bool (3 # 10) (max_ratio (lit "hello hello") [lit "hello hello"]) = true /\
   is_echo (lit "hello hello") [lit "hello hello"] (3 # 10) = Ok false) /\
  (2 <= length (words_of (lit "foo bar")) /\
   Qle_bool 0 (max_ratio (lit "foo bar") [lit ""]) = true /\
   is_echo (lit "foo bar") [lit ""] 0 = Ok false).
Proof. repeat split; vm_compute; lia. Qed.

(** C5, amended: for every candidate with at least 2 distinct words
    (letter case ignored), every non-empty list of recent responses and
    every threshold [t > 0], [is_echo] is true exactly when the largest
    ratio over the responses is at least [t]; [is_echo] is false whenever
    the list is empty or the candidate has fewer than 2 distinct words. *)
Theorem C5_is_echo_max_ratio (candidate : str) (recent : list str) (t : Q) :
  2 <= length (words_of candidate) -> recent <> [] -> (0 < t)%Q ->
  is_echo candidate recent t = Ok (Qle_bool t (max_ratio candidate recent)) /\
  (forall t', is_echo candidate [] t' = Ok false) /\
  (forall short t',
     length (words_of short) < 2 -> is_echo short recent t' = Ok false).
Proof.
  intros H2 Hne Ht. split; [|split].
  - unfold is_echo. destruct recent as [|r rest]; [congruence|].
    apply Nat.ltb_ge in H2. rewrite H2.
    rewrite (is_echo_loop_exists _ _ _ candidate eq_refl Ht).
    unfold max_ratio. cbn [map existsb].
    now rewrite Qle_bool_max_from, existsb_over_map.
  - reflexivity.
  - intros short t' Hs. unfold is_echo. destruct recent; [reflexivity|].
    apply Nat.ltb_lt in Hs. now rewrite Hs.
Qed.

Lemma C5_is_echo_max_ratio_witness :
  is_echo (lit "your meeting starts") [lit "Your meeting starts at noon."]
          (3 # 10)
  = Ok (Qle_bool (3 # 10)
          (max_ratio (lit "your meeting starts")
                     [lit "Your meeting starts at noon."])).
Proof.
  apply (C5_is_echo_max_ratio (lit "your meeting starts")
           [lit "Your meeting starts at noon."] (3 # 10)).
  - vm_compute. lia.
  - discriminate.
  - reflexivity.
Defined.

(** ** C4: a long fragment without punctuation *)

Lemma index_where_none (p : ascii -> bool) (s : str) :
  (forall c, In c s -> p c = false) -> index_where p s = None.
Proof.
  induction s as [|a s IH]; intros H; simpl; [reflexivity|].
  rewrite (H a (or_introl eq_refl)), IH; [reflexivity|].
  intros c Hc. apply H. now right.
Qed.

Lemma sentence_end_none (s : str) :
  (forall c, In c s -> is_terminal c = false) -> sentence_end s = None.
Proof. intros H. unfold sentence_end. now rewrite index_where_none. Qed.

Lemma rfind_from_absent (c : ascii) (i : nat) (s : str) :
  (forall x, In x s -> x <> c) -> rfind_from c i s = (-1)%Z.
Proof.
  revert i. induction s as [|a s IH]; intros i H; simpl; [reflexivity|].
  rewrite IH by (intros x Hx; apply H; now right). simpl.
  destruct (Ascii.eqb a c) eqn:E; [|reflexivity].
  apply Ascii.eqb_eq in E. exfalso. now apply (H a (or_introl eq_refl)).
Qed.

Lemma rfind_from_last (c : ascii) (s : str) :
  forall (i k : nat),
    nth_error s k = Some c ->
    (forall j, k < j -> nth_error s j <> Some c) ->
    rfind_from c i s = Z.of_nat (i + k).
Proof.
  induction s as [|a s IH]; intros i k Hk Hlast.
  - destruct k; discriminate.
  - destruct k as [|k]; simpl in Hk |- *.
    + injection Hk as ->.
      rewrite rfind_from_absent.
      * simpl. rewrite Ascii.eqb_refl. f_equal. lia.
      * intros x Hx ->. apply In_nth_error in Hx as [j Hj].
        apply (Hlast (S j)); [lia | exact Hj].
    + rewrite (IH (S i) k Hk).
      * replace (0 <=? Z.of_nat (S i + k))%Z with true
          by (symmetry; apply Z.leb_le; lia).
        f_equal. lia.
      * intros j Hj. apply (Hlast (S j)). lia.
Qed.

Lemma rfind_last (c : ascii) (s : str) (hi k : nat) :
  k < hi ->
  nth_error s k = Some c ->
  (forall j, k < j -> j < hi -> nth_error s j <> Some c) ->
  rfind c s hi = Z.of_nat k.
Proof.
  intros Hlt Hk Hlast. unfold rfind.
  rewrite (rfind_from_last c (firstn hi s) 0 k); [reflexivity | |].
  - rewrite nth_error_firstn.
    apply Nat.ltb_lt in Hlt. now rewrite Hlt.
  - intros j Hj. rewrite nth_error_firstn.
    destruct (j <? hi) eqn:E; [|discriminate].
    apply Nat.ltb_lt in E. now apply Hlast.
Qed.

Lemma nonempty_length (s : str) : s <> [] -> Nat.eqb (length s) 0 = false.
Proof. destruct s; [congruence | reflexivity]. Qed.

(** C4, as stated, fails.  With the only blank at offset 150 (a blank
    past offset 50, and the last one at or before offset 150) nothing is
    cut and the whole fragment is flushed as one chunk.  With 149 letters
    followed by 51 blanks the first chunk is cut but the rest, being white
    space, is not flushed. *)
Lemma C4_long_fragment_counterexample :
  (length (fragment_space_at 150) = 200 /\
   existsb is_terminal (fragment_space_at 150) = false /\
   nth_error (fragment_space_at 150) 150 = Some blank /\
   snd (chunk_stream [fragment_space_at 150]) = [fragment_space_at 150]) /\
  (length (repeat "a"%char 149 ++ repeat blank 51) = 200 /\
   existsb is_terminal (repeat "a"%char 149 ++ repeat blank 51) = false /\
   snd (chunk_stream [repeat "a"%char 149 ++ repeat blank 51])
   = [repeat "a"%char 149 ++ [blank]]).
Proof. repeat split; vm_compute; reflexivity. Qed.

(** C4, amended: for every 200-character fragment without a terminal
    mark whose last blank among the offsets 0..149 is at an offset [bp]
    past 50, when the text up to that blank and the text after it each
    hold a character that is not white space, the chunker fed the
    fragment alone emits the text up to and including that blank as the
    first chunk, and the rest is flushed as the second and last chunk
    when the stream ends. *)
Theorem C4_long_fragment (fragment : str) (bp : nat) :
  length fragment = 200 ->
  (forall c, In c fragment -> is_terminal c = false) ->
  50 < bp -> bp < 150 ->
  nth_error fragment bp = Some blank ->
  (forall j, bp < j -> j < 150 -> nth_error fragment j <> Some blank) ->
  strip (firstn (bp + 1) fragment) <> [] ->
  strip (skipn (bp + 1) fragment) <> [] ->
  snd (chunk_stream [fragment])
  = [firstn (bp + 1) fragment; skipn (bp + 1) fragment]
  /\ chunks_sent (fst (chunk_stream [fragment])) = 2.
Proof.
  intros Hlen Hterm H50 H150 Hbp Hlast Hfirst Hrest.
  assert (Hstep : chunk_step chunker_init fragment
                  = (mkChunker fragment (skipn (bp + 1) fragment) 1,
                     [firstn (bp + 1) fragment])).
  { unfold chunk_step, chunker_init. cbn [full_response text_buffer chunks_sent app].
    rewrite sentence_end_none by exact Hterm.
    rewrite Hlen. change (150 <? 200) with true. cbv iota.
    rewrite (rfind_last blank fragment 150 bp H150 Hbp Hlast).
    replace (50 <? Z.of_nat bp)%Z with true
      by (symmetry; apply Z.ltb_lt; lia).
    replace (Z.to_nat (Z.of_nat bp + 1)) with (bp + 1) by lia.
    cbv iota beta. unfold chunk_send.
    rewrite (nonempty_length _ Hfirst). reflexivity. }
  unfold chunk_stream. cbn [chunk_all]. rewrite Hstep.
  unfold chunk_flush. cbn [text_buffer full_response chunks_sent].
  rewrite (nonempty_length _ Hrest). split; reflexivity.
Qed.

Lemma C4_long_fragment_witness :
  snd (chunk_stream [fragment_space_at 100])
  = [firstn (100 + 1) (fragment_space_at 100);
     skipn (100 + 1) (fragment_space_at 100)]
  /\ chunks_sent (fst (chunk_stream [fragment_space_at 100])) = 2.
Proof.
  apply (C4_long_fragment (fragment_space_at 100) 100).
  - reflexivity.
  - intros c Hc.
    assert (H : forallb (fun x => negb (is_terminal x)) (fragment_space_at 100)
                = true) by (vm_compute; reflexivity).
    rewrite forallb_forall in H. apply H in Hc.
    now destruct (is_terminal c).
  - lia.
  - lia.
  - reflexivity.
  - intros j H1 H2 Hj.
    assert (H : forallb (fun j => negb (Nat.ltb 100 j)
                   || match nth_error (fragment_space_at 100) j with
                      | Some c => negb (Ascii.eqb c blank)
                      | None => true
                      end) (seq 0 150) = true) by (vm_compute; reflexivity).
    rewrite forallb_forall in H.
    assert (Hin : In j (seq 0 150)) by (apply in_seq; lia).
    apply H in Hin. rewrite Hj in Hin.
    apply Nat.ltb_lt in H1. rewrite H1 in Hin. discriminate.
  - vm_compute. discriminate.
  - vm_compute. discriminate.
Defined.

(** ** C3: how the delta sequence of [stream_message] ends *)

Lemma str_eqb_eq (a b : str) : str_eqb a b = true <-> a = b.
Proof. unfold str_eqb. destruct (str_eq_dec a b); split; congruence. Qed.

Lemma str_eqb_refl (a : str) : str_eqb a a = true.
Proof. now apply str_eqb_eq. Qed.

Lemma opt_is_other (o : option str) (x y : string) :
  opt_is o x = true -> str_eqb (lit x) (lit y) = false -> opt_is o y = false.
Proof.
  destruct o as [v|]; simpl; [|discriminate].
  intros H. apply str_eqb_eq in H. now subst v.
Qed.






Lemma stream_loop_app (request_id : str) (pre rest : list (Q * recv)) :
  forall run_id ys run_id',
    stream_loop request_id run_id pre = (ys, Waiting run_id') ->
    stream_loop request_id run_id (pre ++ rest)
    = (ys ++ fst (stream_loop request_id run_id' rest),
       snd (stream_loop request_id run_id' rest)).
Proof.
  induction pre as [|[t [f|]] pre IH]; intros run_id ys run_id' H.
  - injection H as <- <-. simpl. now destruct (stream_loop _ _ rest).
  - simpl in H |- *.
    destruct (handle_frame request_id run_id f) as [yl [r| |e]];
      try discriminate.
    destruct (stream_loop request_id r pre) as [more out] eqn:E.
    injection H as <- ->.
    rewrite (IH r more run_id' E).
    destruct (stream_loop request_id run_id' rest). simpl.
    now rewrite app_assoc.
  - discriminate.
Qed.






(** ** The chunker keeps what it is given *)

Lemma drop_while_head (p : ascii -> bool) (s r : str) (c : ascii) :
  drop_while p s = c :: r -> p c = false.
Proof.
  induction s as [|a s IH]; simpl; [discriminate|].
  destruct (p a) eqn:E; [exact IH|].
  intros H. injection H as -> _. exact E.
Qed.

Lemma strip_nil_all (s : str) :
  strip s = [] -> forall c, In c s -> is_space c = true.
Proof.
  unfold strip, lstrip_by, rstrip_by. intros H.
  apply (f_equal (@rev ascii)) in H. rewrite rev_involutive in H. simpl in H.
  pose proof (drop_while_nil_all _ _ H) as Hall.
  destruct (drop_while is_space s) as [|c r] eqn:E.
  - now apply drop_while_nil_all.
  - apply drop_while_head in E.
    rewrite (Hall c) in E; [discriminate|].
    apply -> in_rev. now left.
Qed.

Lemma strip_keeps_char (s : str) :
  strip s <> [] -> exists c, In c s /\ is_space c = false.
Proof.
  intros H. induction s as [|a s IH].
  - now contradiction H.
  - destruct (is_space a) eqn:Ea.
    + destruct IH as (c & Hc & Hs).
      * intros Hs. apply H. unfold strip, lstrip_by in *. simpl.
        now rewrite Ea.
      * exists c. split; [now right | exact Hs].
    + exists a. split; [now left | exact Ea].
Qed.

Lemma char_keeps_strip (s : str) (c : ascii) :
  In c s -> is_space c = false -> Nat.eqb (length (strip s)) 0 = false.
Proof.
  intros Hin Hc. apply nonempty_length. intros Hs.
  rewrite (strip_nil_all s Hs c Hin) in Hc. discriminate.
Qed.

(** What one step of the loop does to the three variables: some [n]
    characters leave the front of the buffer, and they are queued when
    they hold more than white space. *)
Lemma chunk_send_shape (full buf : str) (sent n : nat) (should_send : bool) :
  let r := chunk_send full (skipn n buf) sent should_send (firstn n buf) in
  full_response (fst r) = full /\
  text_buffer (fst r) = skipn n buf /\
  ((snd r = [] /\ chunks_sent (fst r) = sent /\
    (should_send = false \/ strip (firstn n buf) = [])) \/
   (snd r = [firstn n buf] /\ strip (firstn n buf) <> [] /\
    chunks_sent (fst r) = S sent)).
Proof.
  unfold chunk_send.
  destruct should_send; simpl; [|auto 10].
  destruct (strip (firstn n buf)) eqn:E; simpl; [auto 10|].
  split; [reflexivity|]. split; [reflexivity|].
  right. split; [reflexivity|]. split; [discriminate | reflexivity].
Qed.

Lemma chunk_step_shape (k : Chunker) (chunk : str) :
  exists n,
    full_response (fst (chunk_step k chunk)) = full_response k ++ chunk /\
    text_buffer (fst (chunk_step k chunk)) = skipn n (text_buffer k ++ chunk) /\
    ((snd (chunk_step k chunk) = [] /\
      chunks_sent (fst (chunk_step k chunk)) = chunks_sent k /\
      strip (firstn n (text_buffer k ++ chunk)) = []) \/
     (snd (chunk_step k chunk) = [firstn n (text_buffer k ++ chunk)] /\
      strip (firstn n (text_buffer k ++ chunk)) <> [] /\
      chunks_sent (fst (chunk_step k chunk)) = S (chunks_sent k))).
Proof.
  unfold chunk_step.
  set (buf := text_buffer k ++ chunk).
  set (full := full_response k ++ chunk).
  assert (Hcut : forall n,
    let r := chunk_send full (skipn n buf) (chunks_sent k) true (firstn n buf) in
    full_response (fst r) = full /\
    text_buffer (fst r) = skipn n buf /\
    ((snd r = [] /\ chunks_sent (fst r) = chunks_sent k /\
      strip (firstn n buf) = []) \/
     (snd r = [firstn n buf] /\ strip (firstn n buf) <> [] /\
      chunks_sent (fst r) = S (chunks_sent k)))).
  { intros n.
    destruct (chunk_send_shape full buf (chunks_sent k) n true)
      as (H1 & H2 & [(H3 & H4 & [H5|H5])|H3]); try discriminate; auto 10. }
  assert (Hkeep :
    let r := chunk_send full buf (chunks_sent k) false [] in
    full_response (fst r) = full /\
    text_buffer (fst r) = skipn 0 buf /\
    ((snd r = [] /\ chunks_sent (fst r) = chunks_sent k /\
      strip (firstn 0 buf) = []) \/
     (snd r = [firstn 0 buf] /\ strip (firstn 0 buf) <> [] /\
      chunks_sent (fst r) = S (chunks_sent k)))).
  { simpl. auto 10. }
  destruct (sentence_end buf) as [e|]; [exists e; apply Hcut|].
  destruct (150 <? length buf); [|exists 0; exact Hkeep].
  destruct (50 <? rfind blank buf 150)%Z; [eexists; apply Hcut|].
  exists 0. exact Hkeep.
Qed.

Lemma In_skipn (n : nat) (s : str) (c : ascii) : In c (skipn n s) -> In c s.
Proof.
  intros H. rewrite <- (firstn_skipn n s). apply in_or_app. now right.
Qed.

Lemma In_firstn (n : nat) (s : str) (c : ascii) : In c (firstn n s) -> In c s.
Proof.
  intros H. rewrite <- (firstn_skipn n s). apply in_or_app. now left.
Qed.

Lemma chunker_inv_init : chunker_inv chunker_init.
Proof. split; simpl; [tauto | lia]. Qed.

Lemma chunker_inv_step (k : Chunker) (chunk : str) :
  chunker_inv k -> chunker_inv (fst (chunk_step k chunk)).
Proof.
  intros [Hbuf Hsent].
  destruct (chunk_step_shape k chunk) as (n & Hfull & Htb & Hout).
  assert (Hsub : forall c, In c (text_buffer k ++ chunk) ->
                           In c (full_response k ++ chunk)).
  { intros c Hc. apply in_app_or in Hc as [Hc|Hc]; apply in_or_app; auto. }
  split.
  - rewrite Hfull, Htb. intros c Hc. apply Hsub. now apply In_skipn in Hc.
  - rewrite Hfull. destruct Hout as [(_ & Hn & _)|(_ & Hs & _)].
    + rewrite Hn. intros Hpos. destruct (Hsent Hpos) as (c & Hc & Hsp).
      exists c. split; [apply in_or_app; now left | exact Hsp].
    + intros _. apply strip_keeps_char in Hs as (c & Hc & Hsp).
      exists c. split; [|exact Hsp]. apply Hsub. now apply In_firstn in Hc.
Qed.

Lemma chunker_inv_flush (k : Chunker) :
  chunker_inv k -> chunker_inv (fst (chunk_flush k)).
Proof.
  intros [Hbuf Hsent]. unfold chunk_flush.
  destruct (strip (text_buffer k)) eqn:E; simpl; [now split|].
  split; simpl; [exact Hbuf|]. intros _.
  destruct (strip_keeps_char (text_buffer k)) as (c & Hc & Hsp);
    [congruence|].
  exists c. auto.
Qed.

Lemma chunk_flush_full (k : Chunker) :
  full_response (fst (chunk_flush k)) = full_response k.
Proof. unfold chunk_flush. now destruct (negb _). Qed.

Lemma chunk_timed_inv (deltas : list (Q * str)) :
  forall k, chunker_inv k -> chunker_inv (fst (chunk_timed k deltas)).
Proof.
  induction deltas as [|[t chunk] rest IH]; intros k Hk; simpl; [exact Hk|].
  pose proof (chunker_inv_step k chunk Hk) as H1.
  destruct (chunk_step k chunk) as [k1 out1]. simpl in H1.
  specialize (IH k1 H1).
  now destruct (chunk_timed k1 rest).
Qed.

Lemma chunk_timed_full (deltas : list (Q * str)) :
  forall k,
    full_response (fst (chunk_timed k deltas))
    = full_response k ++ concat (map snd deltas).
Proof.
  induction deltas as [|[t chunk] rest IH]; intros k; simpl.
  - now rewrite app_nil_r.
  - destruct (chunk_step_shape k chunk) as (n & Hfull & _).
    destruct (chunk_step k chunk) as [k1 out1]. simpl in Hfull.
    specialize (IH k1).
    destruct (chunk_timed k1 rest). simpl in *.
    now rewrite IH, Hfull, app_assoc.
Qed.

Lemma chunker_at_end_full (deltas : list (Q * str)) :
  full_response (chunker_at_end deltas) = concat (map snd deltas).
Proof.
  unfold chunker_at_end. now rewrite chunk_flush_full, chunk_timed_full.
Qed.

Lemma chunker_at_end_speakable (deltas : list (Q * str)) :
  0 < chunks_sent (chunker_at_end deltas) ->
  Nat.eqb (chunks_sent (chunker_at_end deltas)) 0
  || Nat.eqb (length (strip (full_response (chunker_at_end deltas)))) 0
  = false.
Proof.
  intros Hpos.
  assert (Hinv : chunker_inv (chunker_at_end deltas))
    by (apply chunker_inv_flush, chunk_timed_inv, chunker_inv_init).
  destruct Hinv as [_ Hc]. destruct (Hc Hpos) as (c & Hin & Hsp).
  rewrite (char_keeps_strip _ c Hin Hsp).
  destruct (chunks_sent (chunker_at_end deltas)); [lia | reflexivity].
Qed.

(** ** Events of a turn *)

Lemma all_plain_app (a b : list (Q * Event)) :
  all_plain a -> all_plain b -> all_plain (a ++ b).
Proof.
  intros Ha Hb te H. apply in_app_or in H as [H|H]; auto.
Qed.

Lemma all_plain_speak (t : Q) (texts : list str) :
  all_plain (map (fun x => (t, TTSSpeak x)) texts).
Proof.
  intros te H. apply in_map_iff in H as (x & <- & _). reflexivity.
Qed.

Lemma timer_task_plain simple_chat fire_at deltas out phrases recent cap pick :
  all_plain (fst (timer_task simple_chat fire_at deltas out
                             phrases recent cap pick)).
Proof.
  unfold timer_task. destruct (_ && _).
  - destruct (rotate phrases recent cap pick). simpl.
    intros te [<-|[]]. reflexivity.
  - intros te [].
Qed.

Lemma chunk_timed_plain (deltas : list (Q * str)) :
  forall k, all_plain (snd (chunk_timed k deltas)).
Proof.
  induction deltas as [|[t chunk] rest IH]; intros k; simpl.
  - intros te [].
  - destruct (chunk_step k chunk) as [k1 out1].
    specialize (IH k1). destruct (chunk_timed k1 rest). simpl in *.
    apply all_plain_app; [apply all_plain_speak | exact IH].
Qed.

Section TurnShape.

Variables (st : ArbState) (u : str) (env : TurnEnv).

Let stream :=
  snd (stream_message (client st) (request_counter st) (t_tasks env)
                      (inbox env)).

(** The client and the request counter the call leaves. *)
Let after :=
  fst (stream_message (client st) (request_counter st) (t_tasks env)
                      (inbox env)).

Ltac split_timer phrases :=
  match goal with
  | |- context [timer_task ?sc ?f ?d ?o phrases ?r ?c ?p] =>
      let Hp := fresh "Hplain" in
      pose proof (timer_task_plain sc f d o phrases r c p) as Hp;
      destruct (timer_task sc f d o phrases r c p) as [? ?];
      cbn [fst snd] in Hp |- *
  end.

Ltac open_turn H :=
  unfold stream, after in *; unfold process_turn;
  destruct (stream_message (client st) (request_counter st) (t_tasks env)
                           (inbox env)) as [[gateway counter] [ds o]];
  cbn [fst snd] in H |- *; injection H as -> ->;
  split_timer IMMEDIATE_PHRASES;
  split_timer FILLER_PHRASES;
  match goal with
  | |- context [chunk_timed chunker_init ?d] =>
      let Hp := fresh "Hplain" in
      pose proof (chunk_timed_plain d chunker_init) as Hp;
      unfold chunker_at_end;
      destruct (chunk_timed chunker_init d) as [? ?];
      cbn [fst snd] in Hp |- *
  end.

Ltac head_plain :=
  intros te [<-|[<-|Hin]]; [reflexivity | reflexivity |];
  revert te Hin;
  repeat (apply all_plain_app; try assumption).

Lemma process_turn_waiting (deltas : list (Q * str)) (run_id : option str) :
  stream = (deltas, Waiting run_id) ->
  exists head immediate fillers,
    all_plain head /\
    process_turn st u env
    = (head,
       mkArb immediate fillers (recent_bot_responses st)
             (last_bot_speech_end st)
             (match deltas with [] => bot_is_speaking st | _ :: _ => true end)
             (last_processed_message st) true (snd after) (fst after)).
Proof.
  intros H. open_turn H.
  do 3 eexists. split; [|reflexivity].
  head_plain.
Qed.

Lemma process_turn_raised (deltas : list (Q * str)) (t : Q) (e : error) :
  stream = (deltas, Raised t e) ->
  exists head immediate fillers,
    all_plain head /\
    process_turn st u env
    = (head ++ [(t, PassToLLM)],
       mkArb immediate fillers (recent_bot_responses st)
             (last_bot_speech_end st) false
             (last_processed_message st) false (snd after) (fst after)).
Proof.
  intros H. open_turn H.
  do 3 eexists. split; [|reflexivity].
  head_plain.
Qed.

Lemma process_turn_returned (deltas : list (Q * str)) (t : Q) :
  stream = (deltas, Returned t) ->
  exists head immediate fillers,
    all_plain head /\
    process_turn st u env
    = let k := chunker_at_end deltas in
      if Nat.eqb (chunks_sent k) 0
         || Nat.eqb (length (strip (full_response k))) 0
      then
        (head ++ [(t, PassToLLM)],
         mkArb immediate fillers (recent_bot_responses st)
               (last_bot_speech_end st) false
               (last_processed_message st) false (snd after) (fst after))
      else
        (head
         ++ [(t, PostTranscript (lit "assistant") (full_response k))]
         ++ (if is_farewell u
             then [((t_posted env + 3)%Q, EndCall)] else []),
         mkArb immediate fillers
               (remember (recent_bot_responses st) (full_response k))
               (t + estimated_tts_duration (full_response k))%Q false
               (last_processed_message st) false (snd after) (fst after)).
Proof.
  intros H. open_turn H.
  match goal with |- context [chunk_flush ?k] =>
    destruct (chunk_flush k) as [? ?] end. cbn [fst].
  do 3 eexists. split; [|reflexivity].
  apply all_plain_app; [|apply all_plain_speak].
  head_plain.
Qed.

End TurnShape.

Lemma process_turn_last_processed (st : ArbState) (u : str) (env : TurnEnv) :
  last_processed_message (snd (process_turn st u env))
  = last_processed_message st.
Proof.
  destruct (snd (stream_message (client st) (request_counter st) (t_tasks env)
                        (inbox env)))
    as [deltas [t|t e|r]] eqn:E.
  - destruct (process_turn_returned st u env deltas t E)
      as (head & im & fi & _ & ->).
    cbv zeta. now destruct (_ || _).
  - destruct (process_turn_raised st u env deltas t e E)
      as (head & im & fi & _ & ->). reflexivity.
  - destruct (process_turn_waiting st u env deltas r E)
      as (head & im & fi & _ & ->). reflexivity.
Qed.

Lemma process_turn_plain_or_end (st : ArbState) (u : str) (env : TurnEnv) :
  forall te, In te (fst (process_turn st u env)) ->
             snd te <> StartInterruption.
Proof.
  assert (Hp : forall l : list (Q * Event), all_plain l ->
               forall te, In te l -> snd te <> StartInterruption).
  { intros l Hl te Hin Heq. apply Hl in Hin. rewrite Heq in Hin.
    discriminate. }
  intros te.
  destruct (snd (stream_message (client st) (request_counter st) (t_tasks env)
                        (inbox env)))
    as [deltas [t|t e|r]] eqn:E.
  - destruct (process_turn_returned st u env deltas t E)
      as (head & im & fi & Hh & ->).
    cbv zeta. destruct (_ || _); cbn [fst]; intros Hin.
    + apply in_app_or in Hin as [Hin|[<-|[]]]; [now apply (Hp head)|].
      discriminate.
    + apply in_app_or in Hin as [Hin|Hin]; [now apply (Hp head)|].
      destruct Hin as [<-|Hin]; [discriminate|].
      destruct (is_farewell u); [|destruct Hin].
      destruct Hin as [<-|[]]. discriminate.
  - destruct (process_turn_raised st u env deltas t e E)
      as (head & im & fi & Hh & ->). cbn [fst]. intros Hin.
    apply in_app_or in Hin as [Hin|[<-|[]]]; [now apply (Hp head)|].
    discriminate.
  - destruct (process_turn_waiting st u env deltas r E)
      as (head & im & fi & Hh & ->). cbn [fst]. now apply Hp.
Qed.

(** ** The gate *)

Lemma str_eqb_neq (a b : str) : a <> b -> str_eqb a b = false.
Proof. unfold str_eqb. now destruct (str_eq_dec a b). Qed.

Lemma gate_accepted_last (st st1 : ArbState) (u : str) (now : Q) :
  gate st u now = Ok (Accepted st1) -> last_processed_message st1 = u.
Proof.
  unfold gate.
  destruct (str_eqb u (last_processed_message st)); [discriminate|].
  destruct (processing_in_progress st); [discriminate|].
  destruct (bot_is_speaking st).
  - destruct (is_echo u (recent_bot_responses st) (3 # 10)) as [[|]|e];
      simpl; try discriminate.
    destruct (Qlt_bool _ 1); [discriminate|].
    destruct (is_echo u _ (4 # 10)) as [[|]|e']; simpl; try discriminate.
    intros H. injection H as <-. reflexivity.
  - simpl. destruct (Qlt_bool _ 1); [discriminate|].
    destruct (is_echo u _ (4 # 10)) as [[|]|e']; simpl; try discriminate.
    intros H. injection H as <-. reflexivity.
Qed.

Lemma gate_duplicate (st : ArbState) (u : str) (now : Q) :
  last_processed_message st = u -> gate st u now = Ok (Dropped st).
Proof. intros <-. unfold gate. now rewrite str_eqb_refl. Qed.

Lemma intercept_duplicate (st : ArbState) (u : str)
  (earlier : list (str * str)) (env : TurnEnv) :
  last_processed_message st = u ->
  intercept_and_forward st (LLMMessagesFrame (earlier ++ [(lit "user", u)])) env
  = Ok ([], st).
Proof.
  intros H. unfold intercept_and_forward.
  rewrite rev_app_distr. simpl rev. cbn [app].
  rewrite str_eqb_refl, (gate_duplicate st u _ H). reflexivity.
Qed.

(** ** C6: the same text twice *)

(** C6, as stated, fails: an utterance dropped by the cooldown check is
    not recorded as processed, so the same text heard again right after
    it passes the gate and is sent to the gateway. *)
Lemma C6_duplicate_counterexample :
  let st := mkArb [] [] [] 100 false (lit "hello") false 1
                  (mkClient true true) in
  let u := lit "turn on the lights" in
  let frame := LLMMessagesFrame [(lit "user", u)] in
  intercept_and_forward st frame (mkEnv (201 # 2) 0 [] 0 0 0) = Ok ([], st) /\
  exists events st',
    intercept_and_forward st frame
      (mkEnv 102 102 (answering "chat-2" "Done." 102) 105 0 0)
    = Ok (events, st') /\
    In (102%Q, GatewaySend u) events /\
    processing_in_progress st' = false /\
    last_processed_message st' = u.
Proof.
  split; [reflexivity|].
  eexists _, _. split; [vm_compute; reflexivity|].
  split; [right; left; reflexivity | split; reflexivity].
Qed.

(** C6, amended: for every pair of consecutive utterances with identical
    text of which the first passed the gate, and more generally for every
    utterance whose text is the last processed text, the second is dropped
    by the gate: nothing is sent (no gateway call) and no variable of the
    arbitrator changes. *)
Theorem C6_duplicate_dropped (st st1 : ArbState) (u : str)
  (env1 env2 : TurnEnv) (earlier : list (str * str)) :
  gate st u (now_gate env1) = Ok (Accepted st1) ->
  (let st2 := snd (process_turn st1 u env1) in
   intercept_and_forward st2 (LLMMessagesFrame (earlier ++ [(lit "user", u)]))
                         env2
   = Ok ([], st2)) /\
  (forall st', last_processed_message st' = u ->
     intercept_and_forward st' (LLMMessagesFrame (earlier ++ [(lit "user", u)]))
                           env2
     = Ok ([], st')).
Proof.
  intros Hg. split.
  - cbv zeta. apply intercept_duplicate.
    rewrite process_turn_last_processed. exact (gate_accepted_last _ _ _ _ Hg).
  - intros st'. apply intercept_duplicate.
Qed.

Lemma C6_duplicate_dropped_witness :
  let u := lit "turn on the lights" in
  let env := mkEnv 102 102 (answering "chat-1" "Done." 102) 105 0 0 in
  let st2 := snd (process_turn (start_processing arb_online u) u env) in
  gate arb_online u (now_gate env) = Ok (Accepted (start_processing arb_online u)) /\
  intercept_and_forward st2 (LLMMessagesFrame ([] ++ [(lit "user", u)])) env
  = Ok ([], st2).
Proof.
  intros u env st2.
  assert (Hg : gate arb_online u (now_gate env)
               = Ok (Accepted (start_processing arb_online u)))
    by reflexivity.
  split; [exact Hg|].
  exact (proj1 (C6_duplicate_dropped arb_online (start_processing arb_online u)
                  u env env [] Hg)).
Defined.

(** ** C2: an utterance while the bot speaks *)

Lemma is_echo_loop_stricter (user_words responses : list str) (t1 t2 : Q) :
  (t1 <= t2)%Q ->
  is_echo_loop user_words responses t1 = Ok false ->
  is_echo_loop user_words responses t2 = Ok false.
Proof.
  intros Hle. induction responses as [|r rest IH]; simpl; [reflexivity|].
  destruct (words_of r); [exact IH|].
  destruct (0 <? length (meaningful user_words)) eqn:E; [|exact IH].
  apply Nat.ltb_lt in E. rewrite truediv_pos by exact E. simpl.
  match goal with |- context [Qle_bool t1 ?x] => set (ratio := x) end.
  destruct (Qle_bool t1 ratio) eqn:E1; [discriminate|].
  destruct (Qle_bool t2 ratio) eqn:E2; [|exact IH].
  apply Qle_bool_iff in E2.
  assert (H : Qle_bool t1 ratio = true)
    by (apply Qle_bool_iff; now apply Qle_trans with t2).
  congruence.
Qed.

Lemma is_echo_stricter (u : str) (recent : list str) (t1 t2 : Q) :
  (t1 <= t2)%Q ->
  is_echo u recent t1 = Ok false -> is_echo u recent t2 = Ok false.
Proof.
  intros Hle. unfold is_echo. destruct recent; [reflexivity|].
  destruct (length (words_of u) <? 2); [reflexivity|].
  now apply is_echo_loop_stricter.
Qed.

Lemma gate_guarded (st : ArbState) (u : str) (now : Q) (g : gate_result) :
  speaking_guarded st -> gate st u now = Ok g ->
  match g with
  | Dropped s => speaking_guarded s
  | Accepted s => processing_in_progress s = true
  end.
Proof.
  intros Hinv. unfold gate.
  destruct (str_eqb u _); [intros H; injection H as <-; exact Hinv|].
  destruct (processing_in_progress st) eqn:Ep;
    [intros H; injection H as <-; exact Hinv|].
  destruct (bot_is_speaking st) eqn:Es.
  - destruct (is_echo u _ (3 # 10)) as [[|]|e]; cbn [bind];
      [intros H; injection H as <-; exact Hinv | | discriminate].
    destruct (Qlt_bool _ 1);
      [intros H; injection H as <-; intros Hs; discriminate Hs|].
    destruct (is_echo u _ (4 # 10)) as [[|]|e]; cbn [bind];
      try discriminate; intros H; injection H as <-;
      [intros Hs; discriminate Hs | reflexivity].
  - cbn [bind].
    destruct (Qlt_bool _ 1); [intros H; injection H as <-; exact Hinv|].
    destruct (is_echo u _ (4 # 10)) as [[|]|e]; cbn [bind];
      try discriminate; intros H; injection H as <-;
      [exact Hinv | reflexivity].
Qed.

Lemma process_turn_guarded (st : ArbState) (u : str) (env : TurnEnv) :
  processing_in_progress st = true ->
  speaking_guarded (snd (process_turn st u env)).
Proof.
  intros Hp.
  destruct (snd (stream_message (client st) (request_counter st) (t_tasks env)
                                (inbox env)))
    as [deltas [t|t e|r]] eqn:E.
  - destruct (process_turn_returned st u env deltas t E)
      as (head & im & fi & _ & ->).
    cbv zeta. destruct (_ || _); intros Hs; discriminate Hs.
  - destruct (process_turn_raised st u env deltas t e E)
      as (head & im & fi & _ & ->). intros Hs. discriminate Hs.
  - destruct (process_turn_waiting st u env deltas r E)
      as (head & im & fi & _ & ->). intros _. reflexivity.
Qed.

(** C2, on the code: the speaking flag is only ever set while a turn is
    being processed, in every state the interceptor reaches from its
    first one; so an utterance that arrives while the bot speaks is
    dropped by the guard against concurrent processing, whatever its
    text: nothing is queued and no variable changes, there is no
    transition to processing and nothing asks playback to stop.  No event
    of the interceptor is an interruption in any case.  Last, a call in
    which a first turn is answered, a second one is streaming, and
    "stop talking please", which is no echo at 0.3, is dropped. *)
Theorem C2_speaking_utterance_dropped :
  speaking_guarded arb_init /\
  (forall st frame env events st',
     speaking_guarded st ->
     intercept_and_forward st frame env = Ok (events, st') ->
     speaking_guarded st') /\
  (forall st u earlier env,
     speaking_guarded st -> bot_is_speaking st = true ->
     intercept_and_forward st (LLMMessagesFrame (earlier ++ [(lit "user", u)]))
                           env
     = Ok ([], st)) /\
  (forall st frame env events st',
     intercept_and_forward st frame env = Ok (events, st') ->
     forall te, In te events -> snd te <> StartInterruption) /\
  (exists events1 st1 events2 st2,
     intercept_and_forward arb_init
       (LLMMessagesFrame [(lit "user", lit "what's my calendar today")])
       (mkEnv 100 100
              (greeting 100
               ++ answering "chat-1" "Your meeting starts at noon." 100)
              103 0 0)
     = Ok (events1, st1) /\
     intercept_and_forward st1
       (LLMMessagesFrame [(lit "user", lit "and tomorrow")])
       (mkEnv 110 110 (streaming "chat-2" "Tomorrow you have" 110) 0 0 0)
     = Ok (events2, st2) /\
     bot_is_speaking st2 = true /\
     is_echo (lit "stop talking please") (recent_bot_responses st2) (3 # 10)
     = Ok false /\
     intercept_and_forward st2
       (LLMMessagesFrame [(lit "user", lit "stop talking please")])
       (mkEnv 113 113 [] 0 0 0)
     = Ok ([], st2)).
Proof.
  repeat apply conj.
  - intros Hs. discriminate Hs.
  - intros st frame env events st' Hinv. unfold intercept_and_forward.
    destruct frame as [messages|];
      [|intros H; injection H as _ <-; exact Hinv].
    destruct (rev messages) as [|[role content] rest];
      [intros H; injection H as _ <-; exact Hinv|].
    destruct (str_eqb role _); [|intros H; injection H as _ <-; exact Hinv].
    destruct (gate st content (now_gate env)) as [g|e] eqn:Eg;
      [|discriminate].
    pose proof (gate_guarded st content _ g Hinv Eg) as Hg. cbn [bind].
    destruct g as [s|s]; intros H.
    + injection H as _ <-. exact Hg.
    + injection H as H.
      replace st' with (snd (process_turn s content env)) by now rewrite H.
      now apply process_turn_guarded.
  - intros st u earlier env Hinv Hs. unfold intercept_and_forward.
    rewrite rev_app_distr. simpl rev. cbn [app]. rewrite str_eqb_refl.
    unfold gate. destruct (str_eqb u _); [reflexivity|].
    now rewrite (Hinv Hs).
  - intros st frame env events st'. unfold intercept_and_forward.
    assert (Hpass : forall te, In te [(now_gate env, PassToLLM)] ->
                               snd te <> StartInterruption)
      by (intros te [<-|[]]; discriminate).
    destruct frame as [messages|];
      [|intros H; injection H as <- _; exact Hpass].
    destruct (rev messages) as [|[role content] rest];
      [intros H; injection H as <- _; exact Hpass|].
    destruct (str_eqb role _); [|intros H; injection H as <- _; exact Hpass].
    destruct (gate st content (now_gate env)) as [g|e]; [|discriminate].
    cbn [bind]. destruct g as [s|s]; intros H.
    + injection H as <- _. intros te [].
    + injection H as H.
      replace events with (fst (process_turn s content env)) by now rewrite H.
      apply process_turn_plain_or_end.
  - eexists _, _, _, _.
    split; [vm_compute; reflexivity|].
    split; [vm_compute; reflexivity|].
    repeat split.
Qed.

(** ** C7: the cooldown set when a response has streamed *)

Lemma remember_snoc (recent : list str) (x : str) :
  exists earlier, remember recent x = earlier ++ [x].
Proof.
  unfold remember. destruct recent as [|a l].
  - now exists [].
  - destruct (3 <? length ((a :: l) ++ [x])).
    + now exists l.
    + now exists (a :: l).
Qed.

Lemma estimated_tts_duration_nonneg (full : str) :
  (0 <= estimated_tts_duration full)%Q.
Proof.
  unfold estimated_tts_duration, Qdiv.
  apply Qmult_le_0_compat; unfold Qle; simpl; lia.
Qed.

Lemma Qle_plus_nonneg (t d : Q) : (0 <= d)%Q -> (t <= t + d)%Q.
Proof.
  intros H. rewrite <- (Qplus_0_r t) at 1. now apply Qplus_le_r.
Qed.

(** C7: for every turn whose stream ends normally at clock [t] with at
    least one chunk queued, the arbitrator sets [last_bot_speech_end] to
    [t] plus the length of the whole response (the deltas put together)
    over 15, and appends the whole response to [recent_bot_responses]
    (keeping the last three); the value set is not before [t]. *)
Theorem C7_cooldown_set (st : ArbState) (u : str) (env : TurnEnv)
  (deltas : list (Q * str)) (t : Q) :
  snd (stream_message (client st) (request_counter st) (t_tasks env)
                        (inbox env)) = (deltas, Returned t) ->
  0 < chunks_sent (chunker_at_end deltas) ->
  let st' := snd (process_turn st u env) in
  let full := concat (map snd deltas) in
  last_bot_speech_end st'
  = (t + inject_Z (Z.of_nat (length full)) / 15)%Q /\
  recent_bot_responses st' = remember (recent_bot_responses st) full /\
  (exists earlier, recent_bot_responses st' = earlier ++ [full]) /\
  (t <= last_bot_speech_end st')%Q.
Proof.
  intros Hs Hsent.
  destruct (process_turn_returned st u env deltas t Hs)
    as (head & im & fi & _ & ->).
  cbv zeta. rewrite (chunker_at_end_speakable deltas Hsent).
  rewrite chunker_at_end_full. cbn [snd last_bot_speech_end recent_bot_responses].
  split; [reflexivity|]. split; [reflexivity|].
  split; [apply remember_snoc|].
  apply Qle_plus_nonneg, estimated_tts_duration_nonneg.
Qed.

Lemma C7_cooldown_set_witness :
  let st := start_processing arb_online (lit "what time is it") in
  let env := mkEnv 10 10 (answering "chat-1" "It is noon." 10) 14 0 0 in
  let st' := snd (process_turn st (lit "what time is it") env) in
  last_bot_speech_end st'
  = (13 + inject_Z (Z.of_nat (length (lit "It is noon."))) / 15)%Q /\
  recent_bot_responses st' = [lit "It is noon."].
Proof.
  intros st env st'.
  destruct (C7_cooldown_set st (lit "what time is it") env
              [(12%Q, lit "It is noon.")] 13%Q) as (H1 & H2 & _).
  - vm_compute. reflexivity.
  - vm_compute. lia.
  - split; [exact H1 | exact H2].
Defined.

(** ** A response with something to say queues a chunk *)

Lemma chunker_keeps_init : chunker_keeps chunker_init.
Proof. intros (c & [] & _). Qed.

Lemma chunker_keeps_step (k : Chunker) (chunk : str) :
  chunker_keeps k -> chunker_keeps (fst (chunk_step k chunk)).
Proof.
  intros Hk.
  destruct (chunk_step_shape k chunk) as (n & Hfull & Htb & Hout).
  unfold chunker_keeps. rewrite Hfull, Htb.
  intros (c & Hc & Hsp).
  destruct Hout as [(_ & Hn & Hs)|(_ & _ & Hn)]; [|rewrite Hn; left; lia].
  rewrite Hn.
  assert (Hbuf : 0 < chunks_sent k \/
                 exists d, In d (text_buffer k ++ chunk) /\ is_space d = false).
  { apply in_app_or in Hc as [Hc|Hc].
    - destruct Hk as [Hk|(d & Hd & Hsd)]; [now exists c | now left |].
      right. exists d. split; [apply in_or_app; now left | exact Hsd].
    - right. exists c. split; [apply in_or_app; now right | exact Hsp]. }
  destruct Hbuf as [Hpos|(d & Hin & Hsd)]; [now left|].
  right. exists d. split; [|exact Hsd].
  rewrite <- (firstn_skipn n (text_buffer k ++ chunk)) in Hin.
  apply in_app_or in Hin as [Hin|Hin]; [|exact Hin].
  rewrite (strip_nil_all _ Hs d Hin) in Hsd. discriminate.
Qed.

Lemma chunk_timed_keeps (deltas : list (Q * str)) :
  forall k, chunker_keeps k -> chunker_keeps (fst (chunk_timed k deltas)).
Proof.
  induction deltas as [|[t chunk] rest IH]; intros k Hk; simpl; [exact Hk|].
  pose proof (chunker_keeps_step k chunk Hk) as H1.
  destruct (chunk_step k chunk) as [k1 out1]. simpl in H1.
  specialize (IH k1 H1).
  now destruct (chunk_timed k1 rest).
Qed.

Lemma chunk_flush_sends (k : Chunker) :
  chunker_keeps k ->
  (exists c, In c (full_response k) /\ is_space c = false) ->
  0 < chunks_sent (fst (chunk_flush k)).
Proof.
  intros Hk Hc. unfold chunk_flush.
  destruct (Hk Hc) as [Hpos|(d & Hd & Hsd)].
  - destruct (negb _); simpl; lia.
  - rewrite (char_keeps_strip _ d Hd Hsd). simpl. lia.
Qed.

(** A stream that ended normally queued a chunk exactly when the whole
    response holds more than white space. *)
Lemma chunks_sent_iff_speakable (deltas : list (Q * str)) :
  0 < chunks_sent (chunker_at_end deltas)
  <-> strip (concat (map snd deltas)) <> [].
Proof.
  split.
  - intros Hpos Hs.
    assert (Hinv : chunker_inv (chunker_at_end deltas))
      by (apply chunker_inv_flush, chunk_timed_inv, chunker_inv_init).
    destruct Hinv as [_ Hc]. destruct (Hc Hpos) as (c & Hin & Hsp).
    rewrite chunker_at_end_full in Hin.
    rewrite (strip_nil_all _ Hs c Hin) in Hsp. discriminate.
  - intros Hs. apply strip_keeps_char in Hs as (c & Hin & Hsp).
    unfold chunker_at_end. apply chunk_flush_sends.
    + apply chunk_timed_keeps, chunker_keeps_init.
    + exists c. rewrite chunk_timed_full. auto.
Qed.

(** ** C8: ending the call after a farewell *)

Lemma end_calls_plain (events : list (Q * Event)) :
  all_plain events -> end_calls events = [].
Proof.
  induction events as [|[t e] rest IH]; intros H; [reflexivity|].
  unfold end_calls in *. simpl.
  pose proof (H (t, e) (or_introl eq_refl)) as He. simpl in He.
  destruct e; try discriminate; simpl;
    apply IH; intros te Hin; apply H; now right.
Qed.

Lemma end_calls_app (a b : list (Q * Event)) :
  end_calls (a ++ b) = end_calls a ++ end_calls b.
Proof. apply filter_app. Qed.

(** C8, as stated, fails: a farewell answered with the response "  " has
    a stream that completes normally with a response that is not empty
    (one delta of two blanks is yielded), yet no chunk is queued for it,
    the turn takes the fallback branch, hands the frame to the local
    model and queues no call-termination event. *)
Lemma C8_farewell_end_call_counterexample :
  let st := start_processing arb_online (lit "Goodbye!") in
  let env := mkEnv 10 10 (answering "chat-1" "  " 10) 14 0 0 in
  is_farewell (lit "Goodbye!") = true /\
  snd (stream_message (client st) (request_counter st) (t_tasks env)
                      (inbox env))
  = ([(12%Q, lit "  ")], Returned 13) /\
  concat (map snd [(12%Q, lit "  ")]) <> [] /\
  end_calls (fst (process_turn st (lit "Goodbye!") env)) = [] /\
  passes (fst (process_turn st (lit "Goodbye!") env)) = [(13%Q, PassToLLM)].
Proof.
  repeat split; try (vm_compute; reflexivity). discriminate.
Qed.

(** C8, amended: for every utterance classified as a farewell whose
    stream ends normally at clock [t] with a response that holds more
    than white space (so that a chunk is queued), the turn queues exactly
    one call-termination event, three time units after the assistant
    transcript is posted at [t_posted >= t], hence no sooner than [t + 3];
    when the response is empty or only white space, or the stream raises,
    the turn queues no call-termination event. *)
Theorem C8_farewell_end_call (st : ArbState) (u : str) (env : TurnEnv) :
  is_farewell u = true ->
  (forall deltas t,
     snd (stream_message (client st) (request_counter st) (t_tasks env)
                        (inbox env))
     = (deltas, Returned t) ->
     strip (concat (map snd deltas)) <> [] ->
     (t <= t_posted env)%Q ->
     end_calls (fst (process_turn st u env))
     = [((t_posted env + 3)%Q, EndCall)] /\
     (t + 3 <= t_posted env + 3)%Q) /\
  (forall deltas t,
     snd (stream_message (client st) (request_counter st) (t_tasks env)
                        (inbox env))
     = (deltas, Returned t) ->
     strip (concat (map snd deltas)) = [] ->
     end_calls (fst (process_turn st u env)) = []) /\
  (forall deltas t e,
     snd (stream_message (client st) (request_counter st) (t_tasks env)
                        (inbox env))
     = (deltas, Raised t e) ->
     end_calls (fst (process_turn st u env)) = []).
Proof.
  intros Hf. split; [|split].
  - intros deltas t Hs Hne Hle.
    destruct (process_turn_returned st u env deltas t Hs)
      as (head & im & fi & Hh & ->).
    cbv zeta.
    rewrite (chunker_at_end_speakable deltas)
      by now apply chunks_sent_iff_speakable.
    rewrite Hf. cbn [fst]. split.
    + rewrite end_calls_app, (end_calls_plain head Hh). reflexivity.
    + now apply Qplus_le_l.
  - intros deltas t Hs He.
    destruct (process_turn_returned st u env deltas t Hs)
      as (head & im & fi & Hh & ->).
    cbv zeta. rewrite chunker_at_end_full, He. simpl length.
    rewrite orb_true_r. cbn [fst].
    rewrite end_calls_app, (end_calls_plain head Hh). reflexivity.
  - intros deltas t e Hs.
    destruct (process_turn_raised st u env deltas t e Hs)
      as (head & im & fi & Hh & ->).
    cbn [fst]. rewrite end_calls_app, (end_calls_plain head Hh). reflexivity.
Qed.

Lemma C8_farewell_end_call_witness :
  let st := start_processing arb_online (lit "Goodbye!") in
  let env := mkEnv 10 10 (answering "chat-1" "Talk soon." 10) 14 0 0 in
  is_farewell (lit "Goodbye!") = true /\
  end_calls (fst (process_turn st (lit "Goodbye!") env)) = [(17%Q, EndCall)].
Proof.
  intros st env.
  assert (Hf : is_farewell (lit "Goodbye!") = true) by reflexivity.
  split; [exact Hf|].
  destruct (C8_farewell_end_call st (lit "Goodbye!") env Hf) as (H & _).
  destruct (H [(12%Q, lit "Talk soon.")] 13%Q) as [H1 _].
  - vm_compute. reflexivity.
  - vm_compute. discriminate.
  - vm_compute. discriminate.
  - rewrite H1. vm_compute. reflexivity.
Defined.

(** ** C1: when the filler timer fires *)

Lemma process_turn_timers (st : ArbState) (u : str) (env : TurnEnv) :
  let '(deltas, out) :=
    snd (stream_message (client st) (request_counter st) (t_tasks env)
                        (inbox env)) in
  exists rest,
    fst (process_turn st u env)
    = [(now_gate env, PostTranscript (lit "user") u);
       (t_tasks env, GatewaySend u)]
      ++ fst (timer_task (is_simple_chat u) (t_tasks env + 3)%Q deltas out
                         IMMEDIATE_PHRASES (recent_immediate st) 3
                         (pick_ack env))
      ++ fst (timer_task (is_simple_chat u) (t_tasks env + 4)%Q deltas out
                         FILLER_PHRASES (recent_fillers st) 4
                         (pick_filler env))
      ++ rest.
Proof.
  unfold process_turn.
  destruct (stream_message (client st) (request_counter st) (t_tasks env)
                           (inbox env)) as [[gateway counter] [deltas out]].
  cbn [snd].
  destruct (timer_task (is_simple_chat u) (t_tasks env + 3)%Q deltas out
              IMMEDIATE_PHRASES (recent_immediate st) 3 (pick_ack env))
    as [ack_events immediate].
  destruct (timer_task (is_simple_chat u) (t_tasks env + 4)%Q deltas out
              FILLER_PHRASES (recent_fillers st) 4 (pick_filler env))
    as [filler_events fillers].
  destruct (chunk_timed chunker_init deltas) as [k spoken].
  cbn [fst snd app].
  destruct out as [t|t e|r].
  - destruct (chunk_flush k) as [k' flushed].
    destruct (_ || _); cbn [fst];
      eexists; rewrite <- !app_assoc; cbn [app]; reflexivity.
  - eexists. cbn [fst]. rewrite <- !app_assoc. cbn [app]. reflexivity.
  - eexists. cbn [fst]. reflexivity.
Qed.

(** The second timer speaks four time units after the tasks of the turn
    are created, whenever the utterance is not simple chat and the stream
    has done nothing by then. *)
Lemma filler_fires_after_four (st : ArbState) (u : str) (env : TurnEnv) :
  is_simple_chat u = false ->
  (let '(deltas, out) :=
     snd (stream_message (client st) (request_counter st) (t_tasks env)
                        (inbox env)) in
   fires (t_tasks env + 4)%Q deltas out = true) ->
  In ((t_tasks env + 4)%Q,
      TTSSpeak (fst (rotate FILLER_PHRASES (recent_fillers st) 4
                            (pick_filler env))))
     (fst (process_turn st u env)).
Proof.
  intros Hs Hq. pose proof (process_turn_timers st u env) as H.
  destruct (snd (stream_message (client st) (request_counter st) (t_tasks env)
                        (inbox env)))
    as [deltas out].
  destruct H as [rest ->].
  apply in_or_app. right. apply in_or_app. right. apply in_or_app. left.
  unfold timer_task. rewrite Hs, Hq. simpl.
  destruct (rotate FILLER_PHRASES (recent_fillers st) 4 (pick_filler env)).
  now left.
Qed.

(** C1, on the code: the first turn of a call, for "what's my calendar
    today", whose tasks are created at clock 100; the gateway challenges
    and accepts the client at once and then yields nothing until the
    read times out at clock 220.  The acknowledgment is queued at 103 and
    the filler at 104, four time units after the start of the turn and one
    after the acknowledgment, not at 107. *)
Theorem C1_filler_timer_at_four :
  let u := lit "what's my calendar today" in
  let env := mkEnv 100 100 (greeting 100 ++ [(220%Q, RecvTimeout)]) 220 0 0 in
  is_simple_chat u = false /\
  fst (process_turn (start_processing arb_init u) u env)
  = [ (100%Q, PostTranscript (lit "user") u);
      (100%Q, GatewaySend u);
      (103%Q, TTSSpeak (lit "Let me check on that."));
      (104%Q, TTSSpeak (lit "Still working on that..."));
      (220%Q, PassToLLM) ] /\
  ~ In (107%Q, TTSSpeak (lit "Still working on that..."))
       (fst (process_turn (start_processing arb_init u) u env)).
Proof.
  split; [reflexivity|]. split; [vm_compute; reflexivity|].
  vm_compute. intros H.
  repeat (destruct H as [H|H]; [discriminate H|]). exact H.
Qed.

(** * Further properties of the code *)

(** ** Classifier: punctuation and letter case *)

Lemma char_in_In (c : ascii) (chars : str) :
  char_in c chars = true -> In c chars.
Proof.
  unfold char_in. intros H. apply existsb_exists in H as (x & Hx & He).
  apply Ascii.eqb_eq in He. now subst x.
Qed.

Lemma mark_plain (c : ascii) :
  char_in c (lit "!?.,:;") = true -> lower_char c = c /\ is_space c = false.
Proof.
  intros H. apply char_in_In in H. simpl in H.
  repeat (destruct H as [<-|H]; [split; reflexivity|]). destruct H.
Qed.

Lemma normalize_mark (t : str) (c : ascii) :
  trailing_space t = false -> char_in c (lit "!?.,:;") = true ->
  normalize (t ++ [c]) = normalize t.
Proof.
  intros H Hm. destruct (mark_plain c Hm) as [Hl Hsp].
  unfold trailing_space in H.
  destruct (rev t) as [|d r] eqn:E;
    apply (f_equal (@rev ascii)) in E; rewrite rev_involutive in E;
    simpl in E; subst t.
  - unfold normalize, strip, lstrip_by, rstrip. simpl lower. rewrite Hl.
    simpl drop_while. rewrite Hsp.
    pose proof (rstrip_by_snoc_keep is_space [] c Hsp) as H1.
    pose proof (rstrip_by_snoc_drop (fun x => char_in x (lit "!?.,:;")) [] c Hm)
      as H2.
    simpl app in H1, H2. now rewrite H1, H2.
  - assert (Hd : is_space (lower_char d) = false)
      by now rewrite is_space_lower_char.
    unfold normalize, strip, lstrip_by, rstrip.
    rewrite !lower_app. simpl lower. rewrite Hl, <- app_assoc. simpl app.
    rewrite !drop_while_stop by exact Hd.
    set (y := drop_while is_space (lower (rev r))).
    change (y ++ [lower_char d; c]) with (y ++ [lower_char d] ++ [c]).
    rewrite (app_assoc y).
    rewrite (rstrip_by_snoc_keep is_space (y ++ [lower_char d])) by exact Hsp.
    rewrite (rstrip_by_snoc_keep is_space y) by exact Hd.
    now rewrite rstrip_by_snoc_drop by exact Hm.
Qed.

Lemma trailing_space_snoc (t : str) (c : ascii) :
  trailing_space (t ++ [c]) = is_space c.
Proof. unfold trailing_space. now rewrite rev_app_distr. Qed.

Lemma normalize_marks (q : str) :
  forall t, trailing_space t = false -> all_marks q = true ->
            normalize (t ++ q) = normalize t.
Proof.
  induction q as [|c q IH]; intros t Ht Hq.
  - now rewrite app_nil_r.
  - simpl in Hq. apply andb_true_iff in Hq as [Hc Hq].
    change (t ++ c :: q) with (t ++ [c] ++ q). rewrite app_assoc.
    rewrite IH; [now apply normalize_mark | | exact Hq].
    rewrite trailing_space_snoc. now apply mark_plain.
Qed.

Lemma contains_single (c : ascii) (s : str) :
  contains [c] s = existsb (Ascii.eqb c) s.
Proof.
  induction s as [|b s IH]; [reflexivity|].
  simpl. rewrite IH. now destruct s; rewrite andb_true_r.
Qed.

(** X1: a run of the marks [! ? . , : ;] after a text that does not end
    in white space does not change the farewell test; and when the run
    has no question mark it does not change the simple-chat test. *)
Theorem X1_trailing_marks (t q : str) :
  trailing_space t = false -> all_marks q = true ->
  is_farewell (t ++ q) = is_farewell t /\
  (char_in "?"%char q = false ->
   is_simple_chat (t ++ q) = is_simple_chat t).
Proof.
  intros Ht Hq. pose proof (normalize_marks q t Ht Hq) as Hn. split.
  - unfold is_farewell. now rewrite Hn.
  - intros Hno. unfold is_simple_chat. rewrite Hn.
    assert (Hc : contains (lit "?") (t ++ q) = contains (lit "?") t).
    { change (lit "?") with ["?"%char]. rewrite !contains_single.
      rewrite existsb_app. unfold char_in in Hno. rewrite Hno.
      apply orb_false_r. }
    assert (Hl : forall ps,
               simple_prefix_loop (normalize t) (t ++ q) ps
               = simple_prefix_loop (normalize t) t ps).
    { induction ps as [|p ps IH]; cbn [simple_prefix_loop]; [reflexivity|].
      now rewrite Hc, IH. }
    now rewrite Hl, Hc.
Qed.

Lemma X1_trailing_marks_witness :
  is_farewell (lit "See you" ++ lit "!?.") = is_farewell (lit "See you").
Proof.
  exact (proj1 (X1_trailing_marks (lit "See you") (lit "!?.")
                                  eq_refl eq_refl)).
Defined.

Lemma lower_char_idem (c : ascii) : lower_char (lower_char c) = lower_char c.
Proof. destruct c as [[] [] [] [] [] [] [] []]; reflexivity. Qed.

Lemma lower_idem (s : str) : lower (lower s) = lower s.
Proof.
  unfold lower. rewrite map_map. apply map_ext. apply lower_char_idem.
Qed.

Lemma question_lower_char (c : ascii) :
  Ascii.eqb "?"%char (lower_char c) = Ascii.eqb "?"%char c.
Proof. destruct c as [[] [] [] [] [] [] [] []]; reflexivity. Qed.

Lemma contains_question_lower (s : str) :
  contains (lit "?") (lower s) = contains (lit "?") s.
Proof.
  change (lit "?") with ["?"%char]. rewrite !contains_single.
  unfold lower. rewrite existsb_over_map.
  induction s as [|c s IH]; cbn [existsb]; [reflexivity|].
  now rewrite question_lower_char, IH.
Qed.

Lemma words_of_lower (s : str) : words_of (lower s) = words_of s.
Proof. unfold words_of. now rewrite lower_idem. Qed.

Lemma is_echo_loop_lower (user_words responses : list str) (t : Q) :
  is_echo_loop user_words (map lower responses) t
  = is_echo_loop user_words responses t.
Proof.
  induction responses as [|r rest IH]; simpl; [reflexivity|].
  rewrite words_of_lower, IH. reflexivity.
Qed.

(** X2: the three classifier functions ignore letter case: lowering the
    message (and, for the echo test, the recent responses) changes no
    answer. *)
Theorem X2_case_insensitive (message : str) (recent : list str) (t : Q) :
  is_farewell (lower message) = is_farewell message /\
  is_simple_chat (lower message) = is_simple_chat message /\
  is_echo (lower message) (map lower recent) t = is_echo message recent t.
Proof.
  assert (Hn : normalize (lower message) = normalize message)
    by (unfold normalize; now rewrite lower_idem).
  split; [|split].
  - unfold is_farewell. now rewrite Hn.
  - unfold is_simple_chat. rewrite Hn, contains_question_lower.
    assert (Hl : forall ps,
               simple_prefix_loop (normalize message) (lower message) ps
               = simple_prefix_loop (normalize message) message ps).
    { induction ps as [|p ps IH]; cbn [simple_prefix_loop]; [reflexivity|].
      now rewrite contains_question_lower, IH. }
    now rewrite Hl.
  - unfold is_echo. rewrite words_of_lower.
    destruct recent as [|r rest]; [reflexivity|].
    change (map lower (r :: rest)) with (lower r :: map lower rest).
    rewrite <- (is_echo_loop_lower _ (r :: rest)). reflexivity.
Qed.

Lemma simple_prefix_loop_question (msg message : str) (ps : list str) :
  contains (lit "?") message = true ->
  simple_prefix_loop msg message ps <> Some true.
Proof.
  intros Hq. induction ps as [|p ps IH]; cbn [simple_prefix_loop];
    [discriminate|].
  rewrite Hq, !orb_true_r. destruct (_ || _); [discriminate | exact IH].
Qed.

(** X3: a message with a question mark in it is simple chat only when
    its normalised text is one of the fixed small-talk entries. *)
Theorem X3_question_mark_not_simple (message : str) :
  contains (lit "?") message = true ->
  mem (normalize message) SIMPLE_CHAT_PATTERNS = false ->
  is_simple_chat message = false.
Proof.
  intros Hq Hm. unfold is_simple_chat. rewrite Hm.
  pose proof (simple_prefix_loop_question (normalize message) message
                SIMPLE_CHAT_PATTERNS Hq) as Hl.
  destruct (simple_prefix_loop _ _ _) as [[|]|]; [congruence | reflexivity |].
  now rewrite Hq, andb_false_r.
Qed.

Lemma X3_question_mark_not_simple_witness :
  is_simple_chat (lit "ok then?") = false.
Proof.
  apply (X3_question_mark_not_simple (lit "ok then?")); reflexivity.
Defined.

(** ** Classifier: the echo test *)

Lemma mem_In (x : str) (xs : list str) : In x xs -> mem x xs = true.
Proof.
  intros H. unfold mem. apply existsb_exists. exists x.
  split; [exact H | apply str_eqb_refl].
Qed.

Lemma inter_self (a : list str) : inter a a = a.
Proof.
  unfold inter.
  assert (H : forall l, (forall x, In x l -> In x a) ->
                        filter (fun x => mem x a) l = l).
  { induction l as [|x l IH]; intros Hl; simpl; [reflexivity|].
    rewrite (mem_In x a) by (apply Hl; now left).
    f_equal. apply IH. intros y Hy. apply Hl. now right. }
  apply H. auto.
Qed.

Lemma Qle_bool_one_self (t : Q) (n : nat) :
  0 < n -> (t <= 1)%Q ->
  Qle_bool t (Qmake (Z.of_nat n) (Pos.of_nat n)) = true.
Proof.
  intros Hn Ht. apply Qle_bool_iff.
  apply Qle_trans with 1%Q; [exact Ht|].
  unfold Qle. simpl.
  rewrite <- (positive_nat_Z (Pos.of_nat n)), Nat2Pos.id by lia. lia.
Qed.

Lemma is_echo_loop_replay (u : str) (responses : list str) (t : Q) :
  2 <= length (words_of u) -> meaningful (words_of u) <> [] ->
  (t <= 1)%Q -> In u responses ->
  is_echo_loop (words_of u) responses t = Ok true.
Proof.
  intros H2 Hm Ht. induction responses as [|r rest IH]; intros Hin.
  - destruct Hin.
  - assert (Hpos : 0 < length (meaningful (words_of u)))
      by (destruct (meaningful (words_of u)); [congruence | simpl; lia]).
    simpl. destruct Hin as [->|Hin].
    + destruct (words_of u) as [|w ws] eqn:Ew; [simpl in H2; lia|].
      rewrite <- Ew in *. rewrite inter_self.
      apply Nat.ltb_lt in Hpos as Hb. rewrite Hb.
      rewrite truediv_pos by exact Hpos. simpl.
      now rewrite Qle_bool_one_self.
    + destruct (words_of r); [now apply IH|].
      apply Nat.ltb_lt in Hpos as Hb. rewrite Hb.
      rewrite truediv_pos by exact Hpos. simpl.
      destruct (Qle_bool t _); [reflexivity | now apply IH].
Qed.

(** X4: a text that repeats one of the recent responses word for word
    is an echo at every threshold up to 1, as long as it has at least two
    distinct words and one of them is not a filler word. *)
Theorem X4_replay_is_echo (u : str) (recent : list str) (t : Q) :
  2 <= length (words_of u) -> meaningful (words_of u) <> [] ->
  (t <= 1)%Q -> In u recent ->
  is_echo u recent t = Ok true.
Proof.
  intros H2 Hm Ht Hin. unfold is_echo.
  destruct recent as [|r rest]; [destruct Hin|].
  apply Nat.ltb_ge in H2 as Hb. rewrite Hb.
  now apply is_echo_loop_replay.
Qed.

Lemma X4_replay_is_echo_witness :
  is_echo (lit "Your meeting starts at noon.")
          [lit "Done."; lit "Your meeting starts at noon."] (4 # 10)
  = Ok true.
Proof.
  apply (X4_replay_is_echo (lit "Your meeting starts at noon.")
           [lit "Done."; lit "Your meeting starts at noon."] (4 # 10)).
  - vm_compute. lia.
  - vm_compute. discriminate.
  - vm_compute. discriminate.
  - right. left. reflexivity.
Defined.

Lemma is_echo_returns (u : str) (recent : list str) (t : Q) :
  exists b, is_echo u recent t = Ok b.
Proof.
  unfold is_echo. destruct recent as [|r rest]; [now exists false|].
  destruct (_ <? 2); [now exists false|].
  apply is_echo_loop_returns.
Qed.

(** X5: the echo test is monotone in the threshold: an echo at a
    threshold is an echo at every lower one (what is dropped at 0.4 is
    dropped at 0.3 too). *)
Theorem X5_echo_lower_threshold (u : str) (recent : list str) (t1 t2 : Q) :
  (t1 <= t2)%Q ->
  is_echo u recent t2 = Ok true -> is_echo u recent t1 = Ok true.
Proof.
  intros Hle H2. destruct (is_echo_returns u recent t1) as [[|] H1];
    [exact H1|].
  rewrite (is_echo_stricter u recent t1 t2 Hle H1) in H2. discriminate.
Qed.

Lemma X5_echo_lower_threshold_witness :
  is_echo (lit "your meeting starts") [lit "Your meeting starts at noon."]
          (3 # 10)
  = Ok true.
Proof.
  apply (X5_echo_lower_threshold (lit "your meeting starts")
           [lit "Your meeting starts at noon."] (3 # 10) (4 # 10)).
  - vm_compute. discriminate.
  - reflexivity.
Defined.

(** ** Chunker: what is queued *)

Lemma speakable_app (a b : str) : speakable (a ++ b) = speakable a ++ speakable b.
Proof. apply filter_app. Qed.

Lemma speakable_blank (s : str) : strip s = [] -> speakable s = [].
Proof.
  intros H. pose proof (strip_nil_all s H) as Hall. unfold speakable.
  induction s as [|c s IH]; [reflexivity|]. simpl.
  rewrite (Hall c (or_introl eq_refl)). simpl.
  apply IH.
  - unfold strip, lstrip_by in *. simpl in H.
    now rewrite (Hall c (or_introl eq_refl)) in H.
  - intros x Hx. apply Hall. now right.
Qed.

Lemma chunk_step_speakable (k : Chunker) (chunk : str) :
  speakable (concat (snd (chunk_step k chunk)))
  ++ speakable (text_buffer (fst (chunk_step k chunk)))
  = speakable (text_buffer k ++ chunk).
Proof.
  destruct (chunk_step_shape k chunk) as (n & _ & Htb & Hout).
  rewrite Htb.
  replace (speakable (text_buffer k ++ chunk))
    with (speakable (firstn n (text_buffer k ++ chunk))
          ++ speakable (skipn n (text_buffer k ++ chunk)))
    by (now rewrite <- speakable_app, firstn_skipn).
  destruct Hout as [(-> & _ & Hs)|(-> & _ & _)]; simpl.
  - now rewrite (speakable_blank _ Hs).
  - now rewrite app_nil_r.
Qed.

Lemma chunk_all_speakable (chunks : list str) :
  forall k,
    speakable (concat (snd (chunk_all k chunks)))
    ++ speakable (text_buffer (fst (chunk_all k chunks)))
    = speakable (text_buffer k) ++ speakable (concat chunks).
Proof.
  induction chunks as [|chunk rest IH]; intros k; simpl.
  - now rewrite app_nil_r.
  - pose proof (chunk_step_speakable k chunk) as Hs.
    destruct (chunk_step k chunk) as [k1 out1].
    specialize (IH k1).
    destruct (chunk_all k1 rest) as [k2 out2]. simpl in *.
    rewrite concat_app, !speakable_app, <- app_assoc, IH.
    now rewrite app_assoc, Hs, speakable_app, app_assoc.
Qed.

(** X6: the chunks queued for a stream that ends normally hold, in
    order, every character of the response that is not white space, each
    once: chunking loses and repeats nothing but white space. *)
Theorem X6_chunks_keep_text (chunks : list str) :
  speakable (concat (snd (chunk_stream chunks))) = speakable (concat chunks).
Proof.
  unfold chunk_stream.
  pose proof (chunk_all_speakable chunks chunker_init) as H.
  destruct (chunk_all chunker_init chunks) as [k1 out1].
  unfold chunk_flush. simpl in H.
  destruct (strip (text_buffer k1)) eqn:E; simpl.
  - rewrite app_nil_r, <- H, (speakable_blank _ E). now rewrite app_nil_r.
  - rewrite concat_app, speakable_app. simpl. now rewrite app_nil_r.
Qed.

Lemma chunk_all_counts (chunks : list str) :
  forall k,
    chunks_sent (fst (chunk_all k chunks))
    = chunks_sent k + length (snd (chunk_all k chunks)) /\
    length (snd (chunk_all k chunks)) <= length chunks /\
    (forall c, In c (snd (chunk_all k chunks)) -> strip c <> []).
Proof.
  induction chunks as [|chunk rest IH]; intros k; simpl.
  - repeat split; [lia | lia | intros c []].
  - destruct (chunk_step_shape k chunk) as (n & _ & _ & Hout).
    destruct (chunk_step k chunk) as [k1 out1].
    destruct (IH k1) as (H1 & H2 & H3).
    destruct (chunk_all k1 rest) as [k2 out2]. simpl in *.
    rewrite length_app.
    destruct Hout as [(-> & Hn & _)|(-> & Hs & Hn)]; simpl;
      (split; [lia|]); (split; [lia|]).
    + exact H3.
    + intros c [<-|Hc]; [exact Hs | now apply H3].
Qed.

(** X7: no chunk queued for speech is empty or made of white space
    only, neither in the loop nor at the flush. *)
Theorem X7_chunks_not_blank (chunks : list str) (c : str) :
  In c (snd (chunk_stream chunks)) -> strip c <> [].
Proof.
  unfold chunk_stream.
  destruct (chunk_all_counts chunks chunker_init) as (_ & _ & H3).
  destruct (chunk_all chunker_init chunks) as [k1 out1].
  unfold chunk_flush.
  destruct (strip (text_buffer k1)) eqn:E; simpl in *.
  - rewrite app_nil_r. apply H3.
  - intros Hin. apply in_app_or in Hin as [Hin|[<-|[]]]; [now apply H3|].
    congruence.
Qed.

Lemma X7_chunks_not_blank_witness :
  strip (lit "How are you?") <> [].
Proof.
  apply (X7_chunks_not_blank [lit "Hello there. How are you?"]).
  right. left. reflexivity.
Defined.

(** X8: [chunks_sent] counts the chunks queued, and a stream of [n]
    fragments queues at most [n + 1] of them: one per fragment in the
    loop, whatever the number of sentences in the buffer, and one at the
    flush. *)
Theorem X8_chunk_count (chunks : list str) :
  chunks_sent (fst (chunk_stream chunks)) = length (snd (chunk_stream chunks))
  /\ length (snd (chunk_stream chunks)) <= length chunks + 1.
Proof.
  unfold chunk_stream.
  destruct (chunk_all_counts chunks chunker_init) as (H1 & H2 & _).
  destruct (chunk_all chunker_init chunks) as [k1 out1].
  unfold chunk_flush.
  destruct (negb _); simpl in *; rewrite length_app; simpl; lia.
Qed.

Lemma index_where_first (p : ascii -> bool) (pre rest : str) (c : ascii) :
  (forall x, In x pre -> p x = false) -> p c = true ->
  index_where p (pre ++ c :: rest) = Some (length pre).
Proof.
  intros Hpre Hc. induction pre as [|a pre IH]; simpl.
  - now rewrite Hc.
  - rewrite (Hpre a (or_introl eq_refl)), IH; [reflexivity|].
    intros x Hx. apply Hpre. now right.
Qed.

Lemma run_length_gaps (p : ascii -> bool) (gaps rest : str) :
  forallb p gaps = true ->
  match rest with [] => True | x :: _ => p x = false end ->
  run_length p (gaps ++ rest) = length gaps.
Proof.
  intros Hg Hr. induction gaps as [|a gaps IH]; simpl in *.
  - destruct rest as [|x rest]; [reflexivity|]. simpl. now rewrite Hr.
  - apply andb_true_iff in Hg as [Ha Hg]. rewrite Ha. f_equal. now apply IH.
Qed.

Lemma skipn_past (pre rest : str) (n : nat) :
  n = length pre -> skipn n (pre ++ rest) = rest.
Proof. intros ->. rewrite skipn_app, skipn_all, Nat.sub_diag. reflexivity. Qed.

Lemma firstn_past (pre rest : str) (n : nat) :
  n = length pre -> firstn n (pre ++ rest) = pre.
Proof.
  intros ->. rewrite firstn_app, firstn_all, Nat.sub_diag. simpl.
  apply app_nil_r.
Qed.

(** X9: when the buffer with the new fragment reads [pre], a first
    terminal mark [c], a run [gaps] of blanks and line feeds, then [rest]
    not starting with one, the step takes [pre ++ c :: gaps] off the
    buffer and leaves [rest], even if [rest] holds whole sentences; the
    piece is queued unless it is white space only, in which case it is
    dropped. *)
Theorem X9_sentence_cut (k : Chunker) (chunk pre gaps rest : str) (c : ascii) :
  text_buffer k ++ chunk = pre ++ c :: gaps ++ rest ->
  (forall x, In x pre -> is_terminal x = false) ->
  is_terminal c = true ->
  forallb is_gap gaps = true ->
  match rest with [] => True | x :: _ => is_gap x = false end ->
  chunk_step k chunk
  = if Nat.eqb (length (strip (pre ++ c :: gaps))) 0
    then (mkChunker (full_response k ++ chunk) rest (chunks_sent k), [])
    else (mkChunker (full_response k ++ chunk) rest (S (chunks_sent k)),
          [pre ++ c :: gaps]).
Proof.
  intros HB Hpre Hc Hg Hr. unfold chunk_step, sentence_end. rewrite HB.
  rewrite (index_where_first is_terminal pre (gaps ++ rest) c Hpre Hc).
  replace (skipn (length pre + 1) (pre ++ c :: gaps ++ rest))
    with (gaps ++ rest).
  2:{ change (pre ++ c :: gaps ++ rest) with (pre ++ [c] ++ gaps ++ rest).
      rewrite app_assoc. symmetry. apply skipn_past.
      rewrite length_app. reflexivity. }
  rewrite (run_length_gaps is_gap gaps rest Hg Hr).
  assert (Hsplit : pre ++ c :: gaps ++ rest = (pre ++ c :: gaps) ++ rest)
    by (rewrite <- app_assoc; reflexivity).
  assert (Hlen : length pre + 1 + length gaps = length (pre ++ c :: gaps))
    by (rewrite length_app; simpl; lia).
  rewrite Hsplit, (firstn_past _ rest _ Hlen), (skipn_past _ rest _ Hlen).
  unfold chunk_send. cbn [andb].
  now destruct (Nat.eqb _ 0).
Qed.

Lemma X9_sentence_cut_witness :
  chunk_step (mkChunker (lit "Hi") (lit "Hi") 0) (lit " all.  Next one. More")
  = (mkChunker (lit "Hi all.  Next one. More") (lit "Next one. More") 1,
     [lit "Hi all.  "]).
Proof.
  apply (X9_sentence_cut (mkChunker (lit "Hi") (lit "Hi") 0)
           (lit " all.  Next one. More") (lit "Hi all") (lit "  ")
           (lit "Next one. More") "."%char).
  - reflexivity.
  - intros x Hx.
    assert (H : forallb (fun y => negb (is_terminal y)) (lit "Hi all") = true)
      by reflexivity.
    rewrite forallb_forall in H. apply H in Hx. now destruct (is_terminal x).
  - reflexivity.
  - reflexivity.
  - reflexivity.
Defined.

(** ** Gateway client: frames that do not count *)

Lemma correlated_none (p : Payload) : correlated None p = false.
Proof. reflexivity. Qed.

Lemma handle_frame_stray (request_id : str) (run_id : option str) (f : Frame) :
  opt_is (type f) "event" = true ->
  correlated run_id (payload f) = false ->
  handle_frame request_id run_id f = ([], Next run_id).
Proof.
  intros Ht Hc. unfold handle_frame.
  rewrite (opt_is_other _ _ "res" Ht) by reflexivity. cbn [andb].
  now rewrite Hc, !andb_false_r.
Qed.

Lemma stream_loop_stray (request_id : str) (run_id : option str)
  (inbox : list (Q * recv)) :
  forallb (fun tr => stray_event run_id (snd tr)) inbox = true ->
  stream_loop request_id run_id inbox = ([], Waiting run_id).
Proof.
  induction inbox as [|[t [f|]] inbox IH]; simpl; intros H;
    [reflexivity | | discriminate].
  apply andb_true_iff in H as [Hf H].
  apply andb_true_iff in Hf as [Ht Hc]. apply negb_true_iff in Hc.
  rewrite (handle_frame_stray _ _ _ Ht Hc), (IH H). reflexivity.
Qed.

(** X10: event frames that are not for the run in hand are ignored: a
    run of them yields nothing and leaves the generator reading with the
    same run; before the request is acknowledged no run is known, so every
    event frame, deltas and "final" included, is ignored. *)
Theorem X10_stray_events_ignored (request_id : str) (run_id : option str)
  (inbox : list (Q * recv)) :
  forallb (fun tr => stray_event run_id (snd tr)) inbox = true ->
  stream_loop request_id run_id inbox = ([], Waiting run_id) /\
  (forall early,
     forallb (fun tr => event_frame (snd tr)) early = true ->
     stream_loop request_id None early = ([], Waiting None)).
Proof.
  intros H. split; [now apply stream_loop_stray|].
  intros early He. apply stream_loop_stray.
  induction early as [|[t [f|]] early IH]; simpl in *;
    [reflexivity | | discriminate].
  apply andb_true_iff in He as [Hf He].
  now rewrite Hf, IH.
Qed.

Lemma X10_stray_events_ignored_witness :
  stream_loop (lit "chat-1") (Some (lit "r1"))
              [(1%Q, Recv (frame_delta "r2" "Hello"));
               (2%Q, Recv (frame_chat "r2" "final"))]
  = ([], Waiting (Some (lit "r1"))).
Proof.
  exact (proj1 (X10_stray_events_ignored (lit "chat-1") (Some (lit "r1"))
                  [(1%Q, Recv (frame_delta "r2" "Hello"));
                   (2%Q, Recv (frame_chat "r2" "final"))] eq_refl)).
Defined.

Lemma decimal_inj (a b : nat) : decimal a = decimal b -> a = b.
Proof.
  unfold decimal, lit. intros H.
  apply (f_equal string_of_list_ascii) in H.
  rewrite !string_of_list_ascii_of_string in H.
  apply (f_equal NilEmpty.uint_of_string) in H.
  rewrite !NilEmpty.usu in H. injection H as H.
  apply (f_equal Nat.of_uint) in H.
  now rewrite !DecimalNat.Unsigned.of_to in H.
Qed.

Lemma connect_loop_at_untimed (now : Q) (inbox : list (Q * recv)) :
  fst (connect_loop_at now inbox) = connect_loop (map snd inbox).
Proof.
  revert now. induction inbox as [|[t [f|]] inbox IH]; intros now; simpl;
    [reflexivity | | reflexivity].
  destruct (is_challenge f); [|apply IH].
  destruct inbox as [|[t' [f'|]] inbox']; reflexivity.
Qed.

Lemma connect_at_connect (c : Client) (now : Q) (inbox : list (Q * recv)) :
  fst (connect_at c now inbox) = connect c (map snd inbox).
Proof.
  unfold connect_at, connect. destruct (connected c && ws c); [reflexivity|].
  pose proof (connect_loop_at_untimed now inbox) as H.
  destruct (connect_loop_at now inbox) as [h unread]. simpl in H.
  now rewrite <- H.
Qed.

Lemma stream_request_counter (c : Client) (n : nat) (now : Q)
  (inbox : list (Q * recv)) :
  fst (stream_request c n now inbox) = (c, n + 1).
Proof. unfold stream_request. now destruct (ws c). Qed.

Lemma stream_message_unconnected (c : Client) (n : nat) (now : Q)
  (inbox : list (Q * recv)) :
  connected c = false ->
  match snd (connect c (map snd inbox)) with
  | HsTimeout | HsRejected _ | HsPending =>
      snd (fst (stream_message c n now inbox)) = n /\
      fst (snd (stream_message c n now inbox)) = []
  | HsAlready | HsConnected | HsUnanswered =>
      snd (fst (stream_message c n now inbox)) = n + 1
  end.
Proof.
  intros Hc. unfold stream_message. rewrite Hc.
  pose proof (connect_at_connect c now inbox) as H.
  destruct (connect_at c now inbox) as [[c' h] [t unread]].
  cbn [fst] in H. rewrite <- H. cbn [snd].
  destruct h; try (split; reflexivity);
    now rewrite stream_request_counter.
Qed.

Lemma request_id_inj (a b : nat) :
  lit "chat-" ++ decimal (a + 1) = lit "chat-" ++ decimal (b + 1) -> a = b.
Proof.
  intros H. apply app_inv_head in H. apply decimal_inj in H. lia.
Qed.

(** X12: [stream_message] raises the request counter by exactly one
    when the client is connected or [connect] returns, and leaves it as
    it was, yielding nothing, when [connect] raises or is still reading;
    the request identifiers "chat-N" of different counters differ, and
    the loop of one request takes the response to the request of another
    counter for no acknowledgment: it yields nothing, keeps its run and
    reads on.  *)
Theorem X12_request_ids_distinct (c : Client) (n : nat) (now : Q)
  (inbox : list (Q * recv)) :
  (connected c = true ->
   fst (stream_message c n now inbox) = (c, n + 1)) /\
  (connected c = false ->
   match snd (connect c (map snd inbox)) with
   | HsTimeout | HsRejected _ | HsPending =>
       snd (fst (stream_message c n now inbox)) = n /\
       fst (snd (stream_message c n now inbox)) = []
   | HsAlready | HsConnected | HsUnanswered =>
       snd (fst (stream_message c n now inbox)) = n + 1
   end) /\
  (forall a b,
     lit "chat-" ++ decimal (a + 1) = lit "chat-" ++ decimal (b + 1) -> a = b) /\
  (forall a b run_id f,
     a <> b -> opt_is (type f) "res" = true ->
     id f = Some (lit "chat-" ++ decimal (a + 1)) ->
     handle_frame (lit "chat-" ++ decimal (b + 1)) run_id f
     = ([], Next run_id)).
Proof.
  repeat apply conj.
  - intros Hc. unfold stream_message. rewrite Hc.
    apply stream_request_counter.
  - apply stream_message_unconnected.
  - apply request_id_inj.
  - intros a b run_id f Hab Ht Hid. unfold handle_frame.
    rewrite Ht, Hid. cbn [opt_eqb].
    rewrite str_eqb_neq
      by (intros H; apply Hab; now apply request_id_inj).
    cbn [andb].
    now rewrite (opt_is_other _ _ "event" Ht) by reflexivity.
Qed.

Lemma X12_request_ids_distinct_witness :
  fst (stream_message (mkClient true true) 4 0 []) = (mkClient true true, 5) /\
  snd (fst (stream_message (mkClient false false) 4 0
              [(1%Q, RecvTimeout)])) = 4 /\
  snd (fst (stream_message (mkClient false false) 4 0 (greeting 1))) = 5 /\
  handle_frame (lit "chat-5") None (frame_res "chat-4" "r1") = ([], Next None).
Proof.
  pose proof (X12_request_ids_distinct (mkClient true true) 4 0 [])
    as (H1 & _ & _ & H4).
  pose proof (X12_request_ids_distinct (mkClient false false) 4 0
                [(1%Q, RecvTimeout)]) as (_ & H2 & _).
  pose proof (X12_request_ids_distinct (mkClient false false) 4 0
                (greeting 1)) as (_ & H3 & _).
  split; [exact (H1 eq_refl)|].
  split; [exact (proj1 (H2 eq_refl))|].
  split; [exact (H3 eq_refl)|].
  apply (H4 3 4 None (frame_res "chat-4" "r1")); [lia | reflexivity..].
Defined.

Lemma handle_frame_yield (request_id : str) (run_id : option str) (f : Frame)
  (d : str) :
  In d (fst (handle_frame request_id run_id f)) ->
  is_event f "agent" = true /\
  opt_is (stream (payload f)) "assistant" = true /\
  data_delta (payload f) = Some d.
Proof.
  unfold handle_frame, is_event.
  destruct (if _ && _ then _ else _) as [r|e]; [|intros []].
  cbn [fst].
  destruct (opt_is (type f) "event"); [|intros []].
  destruct (opt_is (event f) "agent"); [|intros []].
  cbn [andb].
  destruct (correlated r (payload f)); [|intros []].
  destruct (opt_is (stream (payload f)) "assistant"); [|intros []].
  cbn [andb].
  destruct (data_delta (payload f)) as [delta|]; [|intros []].
  intros [<-|[]]. auto.
Qed.

(** X13: every delta that [stream_message] yields is the delta of an
    "agent" event of the assistant stream that was read, yielded at the
    clock of that read. *)
Theorem X13_yielded_deltas_were_read (request_id : str)
  (inbox : list (Q * recv)) :
  forall run_id t d,
    In (t, d) (fst (stream_loop request_id run_id inbox)) ->
    exists f,
      In (t, Recv f) inbox /\ is_event f "agent" = true /\
      opt_is (stream (payload f)) "assistant" = true /\
      data_delta (payload f) = Some d.
Proof.
  induction inbox as [|[t0 [f|]] inbox IH]; intros run_id t d; simpl;
    [intros [] | | intros []].
  pose proof (handle_frame_yield request_id run_id f) as Hy.
  destruct (handle_frame request_id run_id f) as [yl ctl]. cbn [fst] in Hy.
  assert (Hhere : In (t, d) (map (fun x => (t0, x)) yl) ->
                  exists f0, In (t, Recv f0) ((t0, Recv f) :: inbox) /\
                             is_event f0 "agent" = true /\
                             opt_is (stream (payload f0)) "assistant" = true /\
                             data_delta (payload f0) = Some d).
  { intros Hin. apply in_map_iff in Hin as (x & Hx & Hin).
    injection Hx as <- <-. exists f. split; [now left | now apply Hy]. }
  destruct ctl as [r| |e]; cbn [fst]; [|exact Hhere|exact Hhere].
  specialize (IH r t d).
  destruct (stream_loop request_id r inbox) as [more out]. cbn [fst] in *.
  intros Hin. apply in_app_or in Hin as [Hin|Hin]; [now apply Hhere|].
  destruct (IH Hin) as (f0 & Hf0 & Hrest).
  exists f0. split; [now right | exact Hrest].
Qed.

Lemma X13_yielded_deltas_were_read_witness :
  exists f,
    In (2%Q, Recv f) (answering "chat-1" "Done." 0) /\
    is_event f "agent" = true /\
    opt_is (stream (payload f)) "assistant" = true /\
    data_delta (payload f) = Some (lit "Done.").
Proof.
  apply (X13_yielded_deltas_were_read (lit "chat-1")
           (answering "chat-1" "Done." 0) None 2%Q (lit "Done.")).
  vm_compute. left. reflexivity.
Defined.

(** ** Gateway client: the handshake *)

Lemma connect_loop_skip (pre rest : list recv) :
  forallb before_challenge pre = true ->
  connect_loop (pre ++ rest) = connect_loop rest.
Proof.
  induction pre as [|[f|] pre IH]; simpl; intros H;
    [reflexivity | | discriminate].
  apply andb_true_iff in H as [Hf H]. apply negb_true_iff in Hf.
  rewrite Hf. now apply IH.
Qed.

Lemma connect_loop_split (inbox : list recv) (h : handshake) :
  connect_loop inbox = h -> h <> HsPending -> h <> HsTimeout ->
  exists pre ch rest,
    inbox = pre ++ Recv ch :: rest /\
    forallb before_challenge pre = true /\
    is_challenge ch = true /\
    connect_response rest = h.
Proof.
  induction inbox as [|[f|] inbox IH]; simpl; intros H Hp Ht;
    [congruence | | congruence].
  destruct (is_challenge f) eqn:E.
  - exists [], f, inbox. auto.
  - destruct (IH H Hp Ht) as (pre & ch & rest & -> & Hpre & Hch & Hr).
    exists (Recv f :: pre), ch, rest. simpl. rewrite E. auto.
Qed.

(** X15: [connect] on a client that is not connected leaves it connected
    exactly when, after frames that are not the challenge, the challenge
    is read and the very next frame is the positive answer to
    "connect-1"; a negative answer raises "Authentication failed: ..."
    with the carried message; and any other frame in that place ends the
    call without error and without connecting. *)
Theorem X15_connect_handshake (c : Client) (inbox : list recv) :
  connected c = false ->
  (connected (fst (connect c inbox)) = true <->
   exists pre ch f post,
     inbox = pre ++ Recv ch :: Recv f :: post /\
     forallb before_challenge pre = true /\
     is_challenge ch = true /\ connect_ok f = true) /\
  (forall pre ch f post,
     inbox = pre ++ Recv ch :: Recv f :: post ->
     forallb before_challenge pre = true -> is_challenge ch = true ->
     opt_is (type f) "res" && opt_is (id f) "connect-1" = true ->
     ok f = false ->
     snd (connect c inbox)
     = HsRejected (Exception (lit "Authentication failed: "
                               ++ get_or (error_message f) "Unknown error"))) /\
  (forall pre ch f post,
     inbox = pre ++ Recv ch :: Recv f :: post ->
     forallb before_challenge pre = true -> is_challenge ch = true ->
     opt_is (type f) "res" && opt_is (id f) "connect-1" = false ->
     connect c inbox = (mkClient true false, HsUnanswered)).
Proof.
  intros Hc.
  assert (Hrun : forall pre ch rest,
            forallb before_challenge pre = true -> is_challenge ch = true ->
            connect_loop (pre ++ Recv ch :: rest) = connect_response rest).
  { intros pre ch rest Hpre Hch. rewrite connect_loop_skip by exact Hpre.
    simpl. now rewrite Hch. }
  unfold connect. rewrite Hc. cbn [andb fst snd].
  split; [|split].
  - split.
    + intros H. destruct (connect_loop inbox) eqn:E; simpl in H;
        try congruence.
      destruct (connect_loop_split inbox HsConnected E)
        as (pre & ch & rest & -> & Hpre & Hch & Hr); try discriminate.
      destruct rest as [|[f|] post]; simpl in Hr; try discriminate.
      exists pre, ch, f, post. repeat split; auto.
      unfold connect_ok.
      destruct (_ && _); [|discriminate].
      now destruct (ok f).
    + intros (pre & ch & f & post & -> & Hpre & Hch & Hok).
      rewrite (Hrun pre ch _ Hpre Hch). simpl.
      unfold connect_ok in Hok. apply andb_true_iff in Hok as [H1 H2].
      now rewrite H1, H2.
  - intros pre ch f post -> Hpre Hch Hres Hok.
    rewrite (Hrun pre ch _ Hpre Hch). simpl. now rewrite Hres, Hok.
  - intros pre ch f post -> Hpre Hch Hres.
    rewrite (Hrun pre ch _ Hpre Hch). simpl. now rewrite Hres.
Qed.

Lemma X15_connect_handshake_witness :
  connect (mkClient false false)
          [Recv frame_challenge; Recv (frame_chat "r0" "final")]
  = (mkClient true false, HsUnanswered).
Proof.
  destruct (X15_connect_handshake (mkClient false false)
    [Recv frame_challenge; Recv (frame_chat "r0" "final")] eq_refl)
    as (_ & _ & H).
  apply (H [] frame_challenge (frame_chat "r0" "final") []); reflexivity.
Defined.

(** ** Arbitrator: the whole of a turn *)

Section TurnEvents.

Variables (st : ArbState) (u : str) (env : TurnEnv).

Let t0 := t_tasks env.
Let sc := is_simple_chat u.

(** The events and the rotation buffers of a turn, piece by piece. *)
Lemma process_turn_events (deltas : list (Q * str)) (out : outcome) :
  snd (stream_message (client st) (request_counter st) (t_tasks env)
                        (inbox env)) = (deltas, out) ->
  fst (process_turn st u env)
  = [(now_gate env, PostTranscript (lit "user") u); (t0, GatewaySend u)]
    ++ fst (timer_task sc (t0 + 3)%Q deltas out IMMEDIATE_PHRASES
                       (recent_immediate st) 3 (pick_ack env))
    ++ fst (timer_task sc (t0 + 4)%Q deltas out FILLER_PHRASES
                       (recent_fillers st) 4 (pick_filler env))
    ++ snd (chunk_timed chunker_init deltas)
    ++ turn_tail u env deltas out /\
  recent_immediate (snd (process_turn st u env))
  = snd (timer_task sc (t0 + 3)%Q deltas out IMMEDIATE_PHRASES
                    (recent_immediate st) 3 (pick_ack env)) /\
  recent_fillers (snd (process_turn st u env))
  = snd (timer_task sc (t0 + 4)%Q deltas out FILLER_PHRASES
                    (recent_fillers st) 4 (pick_filler env)).
Proof.
  unfold t0, sc. intros H. unfold process_turn, turn_tail.
  destruct (stream_message (client st) (request_counter st) (t_tasks env)
                           (inbox env)) as [[gateway counter] [ds o]].
  cbn [snd] in H. injection H as -> ->.
  destruct (timer_task (is_simple_chat u) (t_tasks env + 3)%Q deltas out
              IMMEDIATE_PHRASES (recent_immediate st) 3 (pick_ack env))
    as [ack_events immediate].
  destruct (timer_task (is_simple_chat u) (t_tasks env + 4)%Q deltas out
              FILLER_PHRASES (recent_fillers st) 4 (pick_filler env))
    as [filler_events fillers].
  destruct (chunk_timed chunker_init deltas) as [k spoken].
  cbn [fst snd app].
  destruct out as [t|t e|r].
  - destruct (chunk_flush k) as [k' flushed].
    destruct (_ || _); cbn [fst snd recent_immediate recent_fillers];
      (split; [|split; reflexivity]);
      rewrite <- !app_assoc; cbn [app]; rewrite <- ?app_assoc; reflexivity.
  - cbn [fst snd recent_immediate recent_fillers].
    split; [|split; reflexivity].
    rewrite <- !app_assoc. cbn [app]. reflexivity.
  - cbn [fst snd recent_immediate recent_fillers].
    split; [|split; reflexivity].
    now rewrite app_nil_r.
Qed.

End TurnEvents.

Lemma spoken_texts_app (a b : list (Q * Event)) :
  spoken_texts (a ++ b) = spoken_texts a ++ spoken_texts b.
Proof. apply flat_map_app. Qed.

Lemma spoken_texts_speak (t : Q) (texts : list str) :
  spoken_texts (map (fun x => (t, TTSSpeak x)) texts) = texts.
Proof.
  induction texts as [|x texts IH]; [reflexivity|].
  unfold spoken_texts in *. simpl. now rewrite IH.
Qed.

Lemma chunk_timed_all (deltas : list (Q * str)) :
  forall k,
    fst (chunk_timed k deltas) = fst (chunk_all k (map snd deltas)) /\
    spoken_texts (snd (chunk_timed k deltas))
    = snd (chunk_all k (map snd deltas)).
Proof.
  induction deltas as [|[t chunk] rest IH]; intros k; simpl.
  - split; reflexivity.
  - destruct (chunk_step k chunk) as [k1 out1].
    destruct (IH k1) as [H1 H2].
    destruct (chunk_timed k1 rest) as [k2 ev2].
    destruct (chunk_all k1 (map snd rest)) as [k3 out3]. simpl in *.
    split; [exact H1|].
    now rewrite spoken_texts_app, spoken_texts_speak, H2.
Qed.

(** The texts spoken at the end of a stream that returned, with those of
    the loop, are the chunks of the whole stream. *)
Lemma spoken_texts_returned (u : str) (env : TurnEnv)
  (deltas : list (Q * str)) (t : Q) :
  spoken_texts (snd (chunk_timed chunker_init deltas)
                ++ turn_tail u env deltas (Returned t))
  = snd (chunk_stream (map snd deltas)).
Proof.
  unfold turn_tail, chunk_stream.
  destruct (chunk_timed_all deltas chunker_init) as [H1 H2].
  destruct (chunk_timed chunker_init deltas) as [k ev].
  destruct (chunk_all chunker_init (map snd deltas)) as [k' out].
  simpl in H1, H2. subst k'. cbn [fst snd].
  destruct (chunk_flush k) as [k2 flushed]. cbn [fst snd].
  rewrite !spoken_texts_app, spoken_texts_speak, H2.
  f_equal. rewrite <- (app_nil_r flushed) at 2. f_equal.
  destruct (_ || _); [reflexivity|].
  now destruct (is_farewell u).
Qed.

(** ** Arbitrator: the gate *)

Lemma Qlt_bool_false (a b : Q) : Qlt_bool a b = false <-> (b <= a)%Q.
Proof.
  unfold Qlt_bool. rewrite negb_false_iff. apply Qle_bool_iff.
Qed.

Lemma Qlt_bool_true (a b : Q) : Qlt_bool a b = true <-> (a < b)%Q.
Proof.
  unfold Qlt_bool. rewrite negb_true_iff. split.
  - intros H. apply Qnot_le_lt. intros Hle.
    apply Qle_bool_iff in Hle. congruence.
  - intros H. destruct (Qle_bool b a) eqn:E; [|reflexivity].
    apply Qle_bool_iff in E. exfalso. now apply (Qlt_not_le a b).
Qed.

Lemma start_processing_quiet (st : ArbState) (u : str) :
  bot_is_speaking st = false ->
  start_processing (set_speaking st false) u = start_processing st u.
Proof. intros H. unfold start_processing, set_speaking. simpl. now rewrite H. Qed.

Lemma set_speaking_quiet (st : ArbState) :
  bot_is_speaking st = false -> set_speaking st false = st.
Proof. intros H. destruct st. simpl in H. subst. reflexivity. Qed.

(** X16: the gate and the interceptor never raise: whatever the state,
    the frame and the clock, they end with a verdict. *)
Theorem X16_gate_never_raises (st : ArbState) (u : str) (frame : PipeFrame)
  (env : TurnEnv) :
  (exists g, gate st u (now_gate env) = Ok g) /\
  (exists r, intercept_and_forward st frame env = Ok r).
Proof.
  assert (Hg : forall s v n, exists g, gate s v n = Ok g).
  { intros s v n. unfold gate.
    destruct (str_eqb v _); [eexists; reflexivity|].
    destruct (processing_in_progress s); [eexists; reflexivity|].
    destruct (is_echo_returns v (recent_bot_responses s) (3 # 10)) as [b3 H3].
    destruct (is_echo_returns v (recent_bot_responses s) (4 # 10)) as [b4 H4].
    destruct (bot_is_speaking s); [rewrite H3|]; cbn [bind].
    - destruct b3; [eexists; reflexivity|].
      destruct (Qlt_bool _ 1); [eexists; reflexivity|].
      change (recent_bot_responses (set_speaking s false))
        with (recent_bot_responses s).
      rewrite H4. cbn [bind]. destruct b4; eexists; reflexivity.
    - destruct (Qlt_bool _ 1); [eexists; reflexivity|].
      rewrite H4. cbn [bind]. destruct b4; eexists; reflexivity. }
  split; [apply Hg|].
  unfold intercept_and_forward.
  destruct frame as [messages|]; [|eexists; reflexivity].
  destruct (rev messages) as [|[role content] rest]; [eexists; reflexivity|].
  destruct (str_eqb role _); [|eexists; reflexivity].
  destruct (Hg st content (now_gate env)) as [g ->]. simpl.
  destruct g; eexists; reflexivity.
Qed.

(** X17: the gate starts a turn exactly when the text differs from the
    last processed one, no turn is being processed, the text is not an
    echo at 0.3 if the bot is speaking, at least one time unit has
    passed since [last_bot_speech_end], and the text is not an echo at
    0.4; the state it starts the turn with has the processing flag set,
    the speaking flag cleared, the text recorded, and nothing else
    changed. *)
Theorem X17_gate_accepts (st st' : ArbState) (u : str) (now : Q) :
  gate st u now = Ok (Accepted st') <->
  u <> last_processed_message st /\
  processing_in_progress st = false /\
  (bot_is_speaking st = true ->
   is_echo u (recent_bot_responses st) (3 # 10) = Ok false) /\
  (1 <= now - last_bot_speech_end st)%Q /\
  is_echo u (recent_bot_responses st) (4 # 10) = Ok false /\
  st' = start_processing (set_speaking st false) u.
Proof.
  unfold gate. split.
  - destruct (str_eqb u (last_processed_message st)) eqn:Eu; [discriminate|].
    assert (Hne : u <> last_processed_message st).
    { intros Heq. rewrite Heq, str_eqb_refl in Eu. discriminate. }
    destruct (processing_in_progress st); [discriminate|].
    destruct (bot_is_speaking st) eqn:Es.
    + destruct (is_echo u _ (3 # 10)) as [[|]|e]; simpl; try discriminate.
      destruct (Qlt_bool _ 1) eqn:Eq; [discriminate|].
      apply Qlt_bool_false in Eq.
      destruct (is_echo u _ (4 # 10)) as [[|]|e]; simpl; try discriminate.
      intros H. injection H as <-. repeat split; auto.
    + simpl. destruct (Qlt_bool _ 1) eqn:Eq; [discriminate|].
      apply Qlt_bool_false in Eq.
      destruct (is_echo u _ (4 # 10)) as [[|]|e]; simpl; try discriminate.
      intros H. injection H as <-. repeat split; auto; try discriminate.
      now rewrite start_processing_quiet.
  - intros (Hne & Hp & H3 & Hq & H4 & ->).
    rewrite (str_eqb_neq _ _ Hne), Hp.
    apply Qlt_bool_false in Hq.
    destruct (bot_is_speaking st) eqn:Es.
    + rewrite (H3 eq_refl). simpl. simpl in Hq. rewrite Hq, H4. reflexivity.
    + simpl. rewrite Hq, H4. simpl. now rewrite start_processing_quiet.
Qed.

(** X18: an utterance the gate drops leaves every variable of the
    arbitrator as it was, with one exception: an utterance taken for a
    barge-in (bot speaking, not an echo at 0.3) and then dropped by the
    cooldown check has already cleared the speaking flag. *)
Theorem X18_gate_drop_state (st st' : ArbState) (u : str) (now : Q) :
  gate st u now = Ok (Dropped st') ->
  st' = st \/
  (bot_is_speaking st = true /\ st' = set_speaking st false /\
   is_echo u (recent_bot_responses st) (3 # 10) = Ok false /\
   (now - last_bot_speech_end st < 1)%Q).
Proof.
  unfold gate.
  destruct (str_eqb u _); [intros H; injection H as <-; now left|].
  destruct (processing_in_progress st); [intros H; injection H as <-; now left|].
  destruct (bot_is_speaking st) eqn:Es.
  - destruct (is_echo u _ (3 # 10)) as [[|]|e] eqn:E3; simpl;
      [intros H; injection H as <-; now left | | discriminate].
    destruct (Qlt_bool _ 1) eqn:Eq.
    + intros H. injection H as <-. right.
      apply Qlt_bool_true in Eq. auto.
    + rewrite (is_echo_stricter u _ (3 # 10) (4 # 10)); [discriminate| |exact E3].
      unfold Qle. simpl. lia.
  - simpl. destruct (Qlt_bool _ 1); [intros H; injection H as <-; now left|].
    destruct (is_echo u _ (4 # 10)) as [[|]|e]; simpl; try discriminate.
    intros H. injection H as <-. now left.
Qed.

Lemma X18_gate_drop_state_witness :
  let st := mkArb [] [] [lit "Your meeting starts at noon."] 100 true
                  (lit "what is on today") false 1
                  (mkClient true true) in
  gate st (lit "stop talking please") (201 # 2)
  = Ok (Dropped (set_speaking st false)) /\
  (set_speaking st false = st \/
   (bot_is_speaking st = true /\ set_speaking st false = set_speaking st false /\
    is_echo (lit "stop talking please") (recent_bot_responses st) (3 # 10)
    = Ok false /\
    ((201 # 2) - last_bot_speech_end st < 1)%Q)).
Proof.
  intros st.
  assert (Hg : gate st (lit "stop talking please") (201 # 2)
               = Ok (Dropped (set_speaking st false))) by reflexivity.
  split; [exact Hg|].
  exact (X18_gate_drop_state st (set_speaking st false)
           (lit "stop talking please") (201 # 2) Hg).
Defined.

Lemma stream_message_counter (c : Client) (n : nat) (now : Q)
  (inbox : list (Q * recv)) :
  n <= snd (fst (stream_message c n now inbox)) <= n + 1 /\
  (connected c = true -> fst (stream_message c n now inbox) = (c, n + 1)).
Proof.
  unfold stream_message. destruct (connected c).
  - rewrite stream_request_counter. simpl. split; [lia | reflexivity].
  - split; [|discriminate].
    destruct (connect_at c now inbox) as [[c' h] [t unread]].
    destruct h; try rewrite stream_request_counter; simpl; lia.
Qed.

(** X19: when the stream of a turn has ended, by returning or by
    raising, the turn leaves the processing flag and the speaking flag
    cleared and the last processed text as it was; the request counter
    is one higher when the client was connected (and the client is then
    as it was) or [connect] returned, stays as it was when [connect]
    raised, and is in any case not lower and at most one higher; when the
    stream raised, the recent responses and [last_bot_speech_end] are
    untouched too. *)
Theorem X19_turn_releases_flags (st : ArbState) (u : str) (env : TurnEnv)
  (deltas : list (Q * str)) (out : outcome) :
  snd (stream_message (client st) (request_counter st) (t_tasks env)
                        (inbox env)) = (deltas, out) ->
  (forall run_id, out <> Waiting run_id) ->
  let st' := snd (process_turn st u env) in
  processing_in_progress st' = false /\
  bot_is_speaking st' = false /\
  (connected (client st) = true ->
   request_counter st' = request_counter st + 1 /\ client st' = client st) /\
  (connected (client st) = false ->
   match snd (connect (client st) (map snd (inbox env))) with
   | HsTimeout | HsRejected _ | HsPending =>
       request_counter st' = request_counter st
   | HsAlready | HsConnected | HsUnanswered =>
       request_counter st' = request_counter st + 1
   end) /\
  request_counter st <= request_counter st' <= request_counter st + 1 /\
  last_processed_message st' = last_processed_message st /\
  (forall t e, out = Raised t e ->
     recent_bot_responses st' = recent_bot_responses st /\
     last_bot_speech_end st' = last_bot_speech_end st).
Proof.
  intros Hs Hw.
  assert (Hun : connected (client st) = false ->
            match snd (connect (client st) (map snd (inbox env))) with
            | HsTimeout | HsRejected _ | HsPending =>
                snd (fst (stream_message (client st) (request_counter st)
                                         (t_tasks env) (inbox env)))
                = request_counter st
            | HsAlready | HsConnected | HsUnanswered =>
                snd (fst (stream_message (client st) (request_counter st)
                                         (t_tasks env) (inbox env)))
                = request_counter st + 1
            end).
  { intros H.
    pose proof (stream_message_unconnected (client st) (request_counter st)
                  (t_tasks env) (inbox env) H) as Hu.
    destruct (snd (connect _ _)); try exact Hu; exact (proj1 Hu). }
  destruct (stream_message_counter (client st) (request_counter st)
              (t_tasks env) (inbox env)) as [Hb Hc].
  assert (Hcon : forall n c,
            n = snd (fst (stream_message (client st) (request_counter st)
                                         (t_tasks env) (inbox env))) ->
            c = fst (fst (stream_message (client st) (request_counter st)
                                         (t_tasks env) (inbox env))) ->
            connected (client st) = true ->
            n = request_counter st + 1 /\ c = client st).
  { intros n c -> -> H. rewrite (Hc H). auto. }
  destruct out as [t|t e|r]; [| |now contradiction (Hw r)].
  - destruct (process_turn_returned st u env deltas t Hs)
      as (head & im & fi & _ & ->).
    cbv zeta. destruct (_ || _); cbn [snd processing_in_progress
      bot_is_speaking request_counter client last_processed_message];
      (repeat split; try discriminate; try (apply Hb); try exact Hun;
       try (now apply (Hcon _ _ eq_refl eq_refl))).
  - destruct (process_turn_raised st u env deltas t e Hs)
      as (head & im & fi & _ & ->).
    cbn [snd processing_in_progress bot_is_speaking request_counter client
         last_processed_message recent_bot_responses last_bot_speech_end].
    repeat split; try (apply Hb); try exact Hun;
      try (now apply (Hcon _ _ eq_refl eq_refl)).
Qed.

Lemma X19_turn_releases_flags_witness :
  let st := start_processing arb_online (lit "what time is it") in
  let env := mkEnv 10 10 (answering "chat-1" "It is noon." 10) 14 0 0 in
  let st' := snd (process_turn st (lit "what time is it") env) in
  processing_in_progress st' = false /\ bot_is_speaking st' = false.
Proof.
  intros st env st'.
  destruct (X19_turn_releases_flags st (lit "what time is it") env
              [(12%Q, lit "It is noon.")] (Returned 13%Q))
    as (H1 & H2 & _).
  - vm_compute. reflexivity.
  - discriminate.
  - split; [exact H1 | exact H2].
Defined.

(** ** Arbitrator: what a turn keeps *)

Lemma remember_length (recent : list str) (x : str) :
  length recent <= 3 -> length (remember recent x) <= 3.
Proof.
  intros H. unfold remember.
  destruct (3 <? length (recent ++ [x])) eqn:E.
  - destruct recent as [|a l]; simpl in *; [lia|].
    rewrite length_app. simpl. lia.
  - apply Nat.ltb_ge in E. exact E.
Qed.

Lemma remember_In (recent : list str) (x r : str) :
  In r (remember recent x) -> In r recent \/ r = x.
Proof.
  unfold remember. intros H.
  assert (Hin : In r (recent ++ [x])).
  { destruct (3 <? _); [|exact H].
    destruct (recent ++ [x]); [destruct H | now right]. }
  apply in_app_or in Hin as [Hin|[<-|[]]]; auto.
Qed.

Lemma gate_recent (st : ArbState) (u : str) (now : Q) (g : gate_result) :
  gate st u now = Ok g ->
  recent_bot_responses (match g with Dropped s => s | Accepted s => s end)
  = recent_bot_responses st.
Proof.
  unfold gate.
  destruct (str_eqb u _); [intros H; injection H as <-; reflexivity|].
  destruct (processing_in_progress st);
    [intros H; injection H as <-; reflexivity|].
  destruct (bot_is_speaking st).
  - destruct (is_echo u _ (3 # 10)) as [[|]|e]; cbn [bind];
      [intros H; injection H as <-; reflexivity | | discriminate].
    destruct (Qlt_bool _ 1); [intros H; injection H as <-; reflexivity|].
    destruct (is_echo u _ (4 # 10)) as [[|]|e]; cbn [bind];
      try discriminate; intros H; injection H as <-; reflexivity.
  - cbn [bind].
    destruct (Qlt_bool _ 1); [intros H; injection H as <-; reflexivity|].
    destruct (is_echo u _ (4 # 10)) as [[|]|e]; cbn [bind];
      try discriminate; intros H; injection H as <-; reflexivity.
Qed.

Lemma process_turn_recent_ok (st : ArbState) (u : str) (env : TurnEnv) :
  recent_ok (recent_bot_responses st) ->
  recent_ok (recent_bot_responses (snd (process_turn st u env))).
Proof.
  intros [Hlen Hall].
  destruct (snd (stream_message (client st) (request_counter st) (t_tasks env)
                        (inbox env)))
    as [deltas [t|t e|r]] eqn:E.
  - destruct (process_turn_returned st u env deltas t E)
      as (head & im & fi & _ & ->).
    cbv zeta. destruct (_ || _) eqn:Ec; cbn [snd recent_bot_responses];
      [now split|].
    apply orb_false_iff in Ec as [_ Ec]. split.
    + now apply remember_length.
    + intros r Hr. apply remember_In in Hr as [Hr|Hr]; [now apply Hall|].
      subst r. intros Hs. rewrite Hs in Ec. discriminate.
  - destruct (process_turn_raised st u env deltas t e E)
      as (head & im & fi & _ & ->). now split.
  - destruct (process_turn_waiting st u env deltas r E)
      as (head & im & fi & _ & ->). now split.
Qed.

(** X20: the interceptor keeps the recent responses in order: if there
    are at most three of them and none is empty or white space only
    before a frame, the same holds after it. *)
Theorem X20_recent_responses_kept (st st' : ArbState) (frame : PipeFrame)
  (env : TurnEnv) (events : list (Q * Event)) :
  recent_ok (recent_bot_responses st) ->
  intercept_and_forward st frame env = Ok (events, st') ->
  recent_ok (recent_bot_responses st').
Proof.
  intros Hok. unfold intercept_and_forward.
  destruct frame as [messages|];
    [|intros H; injection H as _ <-; exact Hok].
  destruct (rev messages) as [|[role content] rest];
    [intros H; injection H as _ <-; exact Hok|].
  destruct (str_eqb role _); [|intros H; injection H as _ <-; exact Hok].
  destruct (gate st content (now_gate env)) as [g|e] eqn:Eg;
    [|discriminate].
  pose proof (gate_recent st content _ g Eg) as Hr. cbn [bind].
  destruct g as [s|s]; intros H.
  - injection H as _ <-. now rewrite Hr.
  - injection H as H.
    replace st' with (snd (process_turn s content env)) by now rewrite H.
    apply process_turn_recent_ok. now rewrite Hr.
Qed.

Lemma X20_recent_responses_kept_witness :
  let st := mkArb [] [] [lit "One."; lit "Two."; lit "Three."] 0 false [] false 0
                  (mkClient true true) in
  let env := mkEnv 10 10 (answering "chat-1" "It is noon." 10) 14 0 0 in
  recent_ok (recent_bot_responses
               (snd (process_turn (start_processing st (lit "what time is it"))
                                  (lit "what time is it") env))).
Proof.
  intros st env.
  apply (X20_recent_responses_kept st _
           (LLMMessagesFrame [(lit "user", lit "what time is it")]) env
           (fst (process_turn (start_processing st (lit "what time is it"))
                              (lit "what time is it") env))).
  - split; [simpl; lia|].
    intros r [<-|[<-|[<-|[]]]]; vm_compute; discriminate.
  - vm_compute. reflexivity.
Defined.

Lemma passes_speak (events : list (Q * Event)) :
  forallb (fun te => is_speak (snd te)) events = true -> passes events = [].
Proof.
  unfold passes. induction events as [|[t e] rest IH]; simpl; [reflexivity|].
  intros H. apply andb_true_iff in H as [He H].
  destruct e; try discriminate. simpl. now apply IH.
Qed.

Lemma timer_task_speaks simple_chat fire_at deltas out phrases recent cap pick :
  forallb (fun te => is_speak (snd te))
          (fst (timer_task simple_chat fire_at deltas out
                           phrases recent cap pick)) = true.
Proof.
  unfold timer_task. destruct (_ && _); [|reflexivity].
  now destruct (rotate phrases recent cap pick).
Qed.

Lemma chunk_timed_speaks (deltas : list (Q * str)) :
  forall k,
    forallb (fun te => is_speak (snd te)) (snd (chunk_timed k deltas)) = true.
Proof.
  induction deltas as [|[t chunk] rest IH]; intros k; simpl; [reflexivity|].
  destruct (chunk_step k chunk) as [k1 out1].
  specialize (IH k1). destruct (chunk_timed k1 rest) as [k2 ev]. simpl in *.
  rewrite forallb_app, IH, andb_true_r.
  induction out1 as [|x out1 IHo]; [reflexivity | exact IHo].
Qed.

Lemma passes_app (a b : list (Q * Event)) :
  passes (a ++ b) = passes a ++ passes b.
Proof. apply filter_app. Qed.

(** X21: a turn hands the frame over to the local model exactly when
    the gateway gave nothing to say: once, at the clock the stream ended,
    when the stream raised or returned a response that is empty or white
    space only, and not at all when it returned a response with content
    or is still being read. *)
Theorem X21_fallback_exactly_when_empty (st : ArbState) (u : str)
  (env : TurnEnv) (deltas : list (Q * str)) (out : outcome) :
  snd (stream_message (client st) (request_counter st) (t_tasks env)
                        (inbox env)) = (deltas, out) ->
  passes (fst (process_turn st u env))
  = match out with
    | Returned t =>
        if Nat.eqb (length (strip (concat (map snd deltas)))) 0
        then [(t, PassToLLM)] else []
    | Raised t _ => [(t, PassToLLM)]
    | Waiting _ => []
    end.
Proof.
  intros Hs.
  destruct (process_turn_events st u env deltas out Hs) as (-> & _ & _).
  rewrite !passes_app.
  rewrite (passes_speak _ (timer_task_speaks _ _ _ _ _ _ _ _)).
  rewrite (passes_speak _ (timer_task_speaks _ _ _ _ _ _ _ _)).
  rewrite (passes_speak _ (chunk_timed_speaks deltas chunker_init)).
  cbn [passes filter snd is_pass app].
  destruct out as [t|t e|r]; [|reflexivity|reflexivity].
  unfold turn_tail.
  pose proof (chunks_sent_iff_speakable deltas) as Hiff.
  pose proof (chunker_at_end_full deltas) as Hfull.
  unfold chunker_at_end in Hiff, Hfull.
  destruct (chunk_flush (fst (chunk_timed chunker_init deltas)))
    as [k flushed] eqn:Ef.
  cbn [fst] in Hiff, Hfull. rewrite Hfull.
  rewrite passes_app.
  assert (Hfl : passes (map (fun x => (t, TTSSpeak x)) flushed) = []).
  { apply passes_speak. clear. induction flushed; [reflexivity | assumption]. }
  rewrite Hfl. cbn [app].
  destruct (strip (concat (map snd deltas))) eqn:Es; cbn [length Nat.eqb].
  - now rewrite orb_true_r.
  - assert (Hpos : 0 < chunks_sent k) by (apply Hiff; discriminate).
    destruct (chunks_sent k); [lia|]. cbn [Nat.eqb orb].
    now destruct (is_farewell u).
Qed.

Lemma X21_fallback_exactly_when_empty_witness :
  let st := start_processing arb_online (lit "what time is it") in
  let env := mkEnv 10 10 (answering "chat-1" "  " 10) 14 0 0 in
  passes (fst (process_turn st (lit "what time is it") env))
  = [(13%Q, PassToLLM)].
Proof.
  intros st env.
  rewrite (X21_fallback_exactly_when_empty st (lit "what time is it") env
             [(12%Q, lit "  ")] (Returned 13%Q)).
  - reflexivity.
  - vm_compute. reflexivity.
Defined.

(** ** Arbitrator: the two timers *)

(** X22: for an utterance that is simple chat no timer task is created:
    the two rotation buffers stay as they were, and when the stream
    returns, the texts spoken in the turn are exactly the chunks of the
    response. *)
Theorem X22_simple_chat_no_timers (st : ArbState) (u : str) (env : TurnEnv) :
  is_simple_chat u = true ->
  recent_immediate (snd (process_turn st u env)) = recent_immediate st /\
  recent_fillers (snd (process_turn st u env)) = recent_fillers st /\
  (forall deltas t,
     snd (stream_message (client st) (request_counter st) (t_tasks env)
                        (inbox env))
     = (deltas, Returned t) ->
     spoken_texts (fst (process_turn st u env))
     = snd (chunk_stream (map snd deltas))).
Proof.
  intros Hs.
  destruct (snd (stream_message (client st) (request_counter st) (t_tasks env)
                        (inbox env)))
    as [deltas out] eqn:E.
  destruct (process_turn_events st u env deltas out E) as (Hev & Him & Hfi).
  unfold timer_task in *. rewrite Hs in *. cbn [negb andb fst snd app] in *.
  split; [exact Him|]. split; [exact Hfi|].
  intros deltas' t H. injection H as <- ->.
  rewrite Hev.
  change (spoken_texts ((now_gate env, PostTranscript (lit "user") u)
                        :: (t_tasks env, GatewaySend u)
                        :: snd (chunk_timed chunker_init deltas)
                           ++ turn_tail u env deltas (Returned t)))
    with (spoken_texts (snd (chunk_timed chunker_init deltas)
                        ++ turn_tail u env deltas (Returned t))).
  apply spoken_texts_returned.
Qed.

Lemma X22_simple_chat_no_timers_witness :
  let st := start_processing arb_online (lit "hello there") in
  let env := mkEnv 10 10 [(200%Q, RecvTimeout)] 14 0 0 in
  recent_immediate (snd (process_turn st (lit "hello there") env)) = [] /\
  recent_fillers (snd (process_turn st (lit "hello there") env)) = [].
Proof.
  intros st env.
  destruct (X22_simple_chat_no_timers st (lit "hello there") env eq_refl)
    as (H1 & H2 & _).
  split; [exact H1 | exact H2].
Defined.

Lemma fires_early (fire_at t1 : Q) (d : str) (rest : list (Q * str))
  (out : outcome) :
  (t1 <= fire_at)%Q -> fires fire_at ((t1, d) :: rest) out = false.
Proof.
  intros H. unfold fires. simpl. apply Qlt_bool_false. exact H.
Qed.

(** X23: when the first delta arrives no later than three time units
    after the timer tasks were created, neither the acknowledgment nor
    the filler is spoken, whatever the utterance: the rotation buffers
    stay as they were and, when the stream returns, the texts spoken are
    exactly the chunks of the response. *)
Theorem X23_early_delta_silences_timers (st : ArbState) (u : str)
  (env : TurnEnv) (t1 : Q) (d : str) (rest : list (Q * str)) (out : outcome) :
  snd (stream_message (client st) (request_counter st) (t_tasks env)
                        (inbox env))
  = ((t1, d) :: rest, out) ->
  (t1 <= t_tasks env + 3)%Q ->
  recent_immediate (snd (process_turn st u env)) = recent_immediate st /\
  recent_fillers (snd (process_turn st u env)) = recent_fillers st /\
  (forall t, out = Returned t ->
     spoken_texts (fst (process_turn st u env))
     = snd (chunk_stream (map snd ((t1, d) :: rest)))).
Proof.
  intros E H3.
  assert (H4 : (t1 <= t_tasks env + 4)%Q).
  { apply Qle_trans with (t_tasks env + 3)%Q; [exact H3|].
    apply Qplus_le_r. unfold Qle. simpl. lia. }
  destruct (process_turn_events st u env _ out E) as (Hev & Him & Hfi).
  unfold timer_task in *.
  rewrite (fires_early _ t1 d rest out H3) in *.
  rewrite (fires_early _ t1 d rest out H4) in *.
  rewrite andb_false_r in *. cbn [fst snd app] in *.
  split; [exact Him|]. split; [exact Hfi|].
  intros t ->. rewrite Hev.
  change (spoken_texts ((now_gate env, PostTranscript (lit "user") u)
                        :: (t_tasks env, GatewaySend u)
                        :: snd (chunk_timed chunker_init ((t1, d) :: rest))
                           ++ turn_tail u env ((t1, d) :: rest) (Returned t)))
    with (spoken_texts (snd (chunk_timed chunker_init ((t1, d) :: rest))
                        ++ turn_tail u env ((t1, d) :: rest) (Returned t))).
  apply spoken_texts_returned.
Qed.

Lemma X23_early_delta_silences_timers_witness :
  let st := start_processing arb_online (lit "what's my calendar today") in
  let env := mkEnv 10 10 (answering "chat-1" "You have two meetings." 10) 14 0 0 in
  recent_immediate (snd (process_turn st (lit "what's my calendar today") env))
  = [] /\
  recent_fillers (snd (process_turn st (lit "what's my calendar today") env))
  = [].
Proof.
  intros st env.
  destruct (X23_early_delta_silences_timers st
              (lit "what's my calendar today") env 12%Q
              (lit "You have two meetings.") [] (Returned 13%Q))
    as (H1 & H2 & _).
  - vm_compute. reflexivity.
  - vm_compute. discriminate.
  - split; [exact H1 | exact H2].
Defined.

Lemma fires_sooner (a b : Q) (deltas : list (Q * str)) (out : outcome) :
  (a <= b)%Q -> fires b deltas out = true -> fires a deltas out = true.
Proof.
  unfold fires. destruct (first_activity deltas out) as [t|]; [|reflexivity].
  intros Hab H. apply Qlt_bool_true in H. apply Qlt_bool_true.
  now apply Qle_lt_trans with b.
Qed.

(** X24: within a turn the filler task never speaks unless the
    acknowledgment task has spoken: whenever the task that wakes after
    four time units queues a phrase, the one that wakes after three has
    queued one. *)
Theorem X24_filler_needs_acknowledgment (simple_chat : bool) (t0 : Q)
  (deltas : list (Q * str)) (out : outcome)
  (recent_a recent_f : list str) (pick_a pick_f : nat) :
  fst (timer_task simple_chat (t0 + 4)%Q deltas out
                  FILLER_PHRASES recent_f 4 pick_f) <> [] ->
  fst (timer_task simple_chat (t0 + 3)%Q deltas out
                  IMMEDIATE_PHRASES recent_a 3 pick_a) <> [].
Proof.
  unfold timer_task.
  destruct simple_chat; cbn [negb andb]; [intros H; now contradiction H|].
  destruct (fires (t0 + 4)%Q deltas out) eqn:E4;
    [|intros H; now contradiction H].
  rewrite (fires_sooner (t0 + 3)%Q (t0 + 4)%Q deltas out); [| |exact E4].
  - intros _. destruct (rotate IMMEDIATE_PHRASES recent_a 3 pick_a).
    discriminate.
  - apply Qplus_le_r. unfold Qle. simpl. lia.
Qed.

Lemma X24_filler_needs_acknowledgment_witness :
  fst (timer_task false (100 + 3)%Q []
                  (Raised 220 (Exception (lit "Gateway timeout")))
                  IMMEDIATE_PHRASES [] 3 0) <> [].
Proof.
  apply (X24_filler_needs_acknowledgment false 100 []
           (Raised 220 (Exception (lit "Gateway timeout"))) [] [] 0 0).
  vm_compute. discriminate.
Defined.

(** ** Arbitrator: after a response *)

Lemma process_turn_spoke (st : ArbState) (u : str) (env : TurnEnv)
  (deltas : list (Q * str)) (t : Q) :
  snd (stream_message (client st) (request_counter st) (t_tasks env)
                        (inbox env)) = (deltas, Returned t) ->
  strip (concat (map snd deltas)) <> [] ->
  let st' := snd (process_turn st u env) in
  processing_in_progress st' = false /\
  bot_is_speaking st' = false /\
  last_bot_speech_end st'
  = (t + estimated_tts_duration (concat (map snd deltas)))%Q /\
  recent_bot_responses st'
  = remember (recent_bot_responses st) (concat (map snd deltas)).
Proof.
  intros Hs Hne.
  destruct (process_turn_returned st u env deltas t Hs)
    as (head & im & fi & _ & ->).
  cbv zeta.
  rewrite (chunker_at_end_speakable deltas)
    by now apply chunks_sent_iff_speakable.
  rewrite chunker_at_end_full. simpl. auto.
Qed.

(** X25: after a turn whose stream returned a response with content at
    clock [t], every utterance that reaches the gate before
    [t + len(response)/15 + 1] is dropped, whatever its text, and
    nothing changes: the window covers the estimated speaking time and
    one more time unit. *)
Theorem X25_window_after_response (st : ArbState) (u u' : str)
  (env : TurnEnv) (deltas : list (Q * str)) (t now' : Q) :
  snd (stream_message (client st) (request_counter st) (t_tasks env)
                        (inbox env)) = (deltas, Returned t) ->
  strip (concat (map snd deltas)) <> [] ->
  (now' - (t + inject_Z (Z.of_nat (length (concat (map snd deltas)))) / 15) < 1)%Q ->
  gate (snd (process_turn st u env)) u' now'
  = Ok (Dropped (snd (process_turn st u env))).
Proof.
  intros Hs Hne Hw.
  destruct (process_turn_spoke st u env deltas t Hs Hne) as (Hp & Hb & Hl & _).
  unfold gate. destruct (str_eqb u' _); [reflexivity|].
  rewrite Hp, Hb. cbn [bind]. rewrite Hl.
  apply Qlt_bool_true in Hw. unfold estimated_tts_duration. now rewrite Hw.
Qed.

Lemma X25_window_after_response_witness :
  let st := start_processing arb_online (lit "what time is it") in
  let env := mkEnv 10 10 (answering "chat-1" "It is noon." 10) 14 0 0 in
  gate (snd (process_turn st (lit "what time is it") env))
       (lit "and tomorrow") (29 # 2)
  = Ok (Dropped (snd (process_turn st (lit "what time is it") env))).
Proof.
  intros st env.
  apply (X25_window_after_response st (lit "what time is it")
           (lit "and tomorrow") env [(12%Q, lit "It is noon.")] 13%Q (29 # 2)).
  - vm_compute. reflexivity.
  - vm_compute. discriminate.
  - vm_compute. reflexivity.
Defined.

Lemma remember_newest (recent : list str) (x : str) : In x (remember recent x).
Proof.
  destruct (remember_snoc recent x) as [earlier ->].
  apply in_or_app. right. now left.
Qed.

(** X26: after a turn whose stream returned a response with at least
    two distinct words, one of them not a filler word, the same text
    coming back as an utterance is dropped by the gate at any later
    clock and changes nothing: it is in the window, or it is an echo. *)
Theorem X26_own_response_dropped (st : ArbState) (u : str) (env : TurnEnv)
  (deltas : list (Q * str)) (t now' : Q) :
  snd (stream_message (client st) (request_counter st) (t_tasks env)
                        (inbox env)) = (deltas, Returned t) ->
  2 <= length (words_of (concat (map snd deltas))) ->
  meaningful (words_of (concat (map snd deltas))) <> [] ->
  gate (snd (process_turn st u env)) (concat (map snd deltas)) now'
  = Ok (Dropped (snd (process_turn st u env))).
Proof.
  intros Hs H2 Hm.
  set (full := concat (map snd deltas)) in *.
  assert (Hne : strip full <> []).
  { intros Hstrip. pose proof (strip_nil_all full Hstrip) as Hall.
    assert (Hw : split (lower full) = []).
    { assert (Hl : forall c, In c (lower full) -> is_space c = true).
      { intros c Hc. apply in_map_iff in Hc as (x & <- & Hx).
        rewrite is_space_lower_char. now apply Hall. }
      clear -Hl. unfold split.
      induction (lower full) as [|c s IH]; [reflexivity|].
      simpl. rewrite (Hl c (or_introl eq_refl)). apply IH.
      intros x Hx. apply Hl. now right. }
    unfold words_of in H2. rewrite Hw in H2. simpl in H2. lia. }
  destruct (process_turn_spoke st u env deltas t Hs Hne) as (Hp & Hb & _ & Hr).
  fold full in Hr.
  unfold gate. destruct (str_eqb full _); [reflexivity|].
  rewrite Hp, Hb. cbn [bind].
  destruct (Qlt_bool _ 1); [reflexivity|].
  assert (He : is_echo full
                 (recent_bot_responses (snd (process_turn st u env))) (4 # 10)
               = Ok true).
  { rewrite Hr. unfold is_echo.
    pose proof (remember_newest (recent_bot_responses st) full) as Hin.
    destruct (remember (recent_bot_responses st) full) as [|r rest];
      [destruct Hin|].
    apply Nat.ltb_ge in H2 as Hb2. rewrite Hb2.
    apply is_echo_loop_replay; auto.
    unfold Qle. simpl. lia. }
  now rewrite He.
Qed.

Lemma X26_own_response_dropped_witness :
  let st := start_processing arb_online (lit "what time is it") in
  let env := mkEnv 10 10 (answering "chat-1" "It is noon." 10) 14 0 0 in
  gate (snd (process_turn st (lit "what time is it") env))
       (concat (map snd [(12%Q, lit "It is noon.")])) 500
  = Ok (Dropped (snd (process_turn st (lit "what time is it") env))).
Proof.
  intros st env.
  apply (X26_own_response_dropped st (lit "what time is it") env
           [(12%Q, lit "It is noon.")] 13%Q 500).
  - vm_compute. reflexivity.
  - vm_compute. lia.
  - vm_compute. discriminate.
Defined.

(** ** Arbitrator: the phrase rotation *)

Lemma mem_false_not_In (x : str) (xs : list str) : mem x xs = false -> ~ In x xs.
Proof. intros H Hin. rewrite (mem_In x xs Hin) in H. discriminate. Qed.

Lemma choice_In (pick : nat) (xs : list str) : xs <> [] -> In (choice pick xs) xs.
Proof.
  intros H. unfold choice. apply nth_In. apply Nat.mod_upper_bound.
  destruct xs; [congruence | discriminate].
Qed.

Lemma rotate_fresh (phrases recent : list str) (cap pick : nat) :
  NoDup phrases -> length recent <= cap -> cap < length phrases ->
  In (fst (rotate phrases recent cap pick)) phrases /\
  ~ In (fst (rotate phrases recent cap pick)) recent /\
  length (snd (rotate phrases recent cap pick)) <= cap.
Proof.
  intros Hnd Hlen Hcap. unfold rotate.
  set (available := filter (fun p => negb (mem p recent)) phrases).
  assert (Hav : available <> []).
  { intros Hnil.
    assert (Hincl : incl phrases recent).
    { intros p Hp. destruct (mem p recent) eqn:E.
      - unfold mem in E. apply existsb_exists in E as (y & Hy & He).
        apply str_eqb_eq in He. now subst y.
      - assert (Hin : In p available)
          by (apply filter_In; split; [exact Hp | now rewrite E]).
        rewrite Hnil in Hin. destruct Hin. }
    pose proof (NoDup_incl_length Hnd Hincl). lia. }
  destruct available as [|a av] eqn:Ea; [congruence|].
  cbn [fst snd].
  pose proof (choice_In pick (a :: av) Hav) as Hin.
  rewrite <- Ea in Hin. apply filter_In in Hin as [Hp Hm].
  rewrite Ea in Hp, Hm. apply negb_true_iff in Hm.
  split; [exact Hp|]. split; [now apply mem_false_not_In|].
  destruct (cap <? length (recent ++ [choice pick (a :: av)])) eqn:E.
  - rewrite length_app in E. simpl in E.
    destruct recent as [|r rs]; simpl in *; [lia|].
    rewrite length_app. simpl. lia.
  - now apply Nat.ltb_ge in E.
Qed.

Lemma phrases_distinct : NoDup IMMEDIATE_PHRASES /\ NoDup FILLER_PHRASES.
Proof.
  split;
    repeat (constructor;
            [simpl; intros H;
             repeat (destruct H as [H|H]; [discriminate H|]); exact H|]);
    constructor.
Qed.

(** X27: the two rotations never repeat a recent phrase: when the
    acknowledgment buffer holds at most 3 phrases and the filler buffer
    at most 4, any phrase a timer of the turn speaks is one of its fixed
    phrases and not one of those in its buffer, and after the turn the
    buffers still hold at most 3 and 4. *)
Theorem X27_rotation_avoids_repeats (st : ArbState) (u : str) (env : TurnEnv)
  (deltas : list (Q * str)) (out : outcome) :
  snd (stream_message (client st) (request_counter st) (t_tasks env)
                        (inbox env)) = (deltas, out) ->
  length (recent_immediate st) <= 3 ->
  length (recent_fillers st) <= 4 ->
  (forall t phrase,
     In (t, TTSSpeak phrase)
        (fst (timer_task (is_simple_chat u) (t_tasks env + 3)%Q deltas out
                         IMMEDIATE_PHRASES (recent_immediate st) 3
                         (pick_ack env))) ->
     In phrase IMMEDIATE_PHRASES /\ ~ In phrase (recent_immediate st)) /\
  (forall t phrase,
     In (t, TTSSpeak phrase)
        (fst (timer_task (is_simple_chat u) (t_tasks env + 4)%Q deltas out
                         FILLER_PHRASES (recent_fillers st) 4
                         (pick_filler env))) ->
     In phrase FILLER_PHRASES /\ ~ In phrase (recent_fillers st)) /\
  length (recent_immediate (snd (process_turn st u env))) <= 3 /\
  length (recent_fillers (snd (process_turn st u env))) <= 4.
Proof.
  intros Hs Ha Hf.
  destruct phrases_distinct as [Hda Hdf].
  destruct (rotate_fresh IMMEDIATE_PHRASES (recent_immediate st) 3
              (pick_ack env) Hda Ha) as (A1 & A2 & A3); [simpl; lia|].
  destruct (rotate_fresh FILLER_PHRASES (recent_fillers st) 4
              (pick_filler env) Hdf Hf) as (F1 & F2 & F3); [simpl; lia|].
  destruct (process_turn_events st u env deltas out Hs) as (_ & -> & ->).
  unfold timer_task.
  destruct (rotate IMMEDIATE_PHRASES (recent_immediate st) 3 (pick_ack env))
    as [pa ra].
  destruct (rotate FILLER_PHRASES (recent_fillers st) 4 (pick_filler env))
    as [pf rf].
  cbn [fst snd] in *.
  repeat split.
  - destruct (_ && _); cbn [fst] in H; [|destruct H].
    destruct H as [H|[]]. injection H as _ <-. exact A1.
  - destruct (_ && _); cbn [fst] in H; [|destruct H].
    destruct H as [H|[]]. injection H as _ <-. exact A2.
  - destruct (_ && _); cbn [fst] in H; [|destruct H].
    destruct H as [H|[]]. injection H as _ <-. exact F1.
  - destruct (_ && _); cbn [fst] in H; [|destruct H].
    destruct H as [H|[]]. injection H as _ <-. exact F2.
  - destruct (_ && _); cbn [snd]; [exact A3 | exact Ha].
  - destruct (_ && _); cbn [snd]; [exact F3 | exact Hf].
Qed.

Lemma X27_rotation_avoids_repeats_witness :
  let st := mkArb [lit "On it."; lit "Let me see."] [] [] 0 false
                  (lit "what's my calendar today") true 0
                  (mkClient true true) in
  let env := mkEnv 100 100 [(220%Q, RecvTimeout)] 220 2 0 in
  length (recent_immediate
            (snd (process_turn st (lit "what's my calendar today") env))) <= 3.
Proof.
  intros st env.
  destruct (X27_rotation_avoids_repeats st (lit "what's my calendar today") env
              [] (Raised 220 (Exception (lit "Gateway timeout"))))
    as (_ & _ & H & _).
  - vm_compute. reflexivity.
  - simpl. lia.
  - simpl. lia.
  - exact H.
Defined.

(** ** Arbitrator: the first utterance of a call *)

(** X28: in the state the interceptor starts with, an empty transcript
    is dropped as a duplicate of the (empty) last processed text, and
    every other text is let through as soon as the clock reads at least
    one time unit. *)
Theorem X28_first_utterance (u : str) (now : Q) :
  gate arb_init [] now = Ok (Dropped arb_init) /\
  (u <> [] -> (1 <= now)%Q ->
   gate arb_init u now = Ok (Accepted (start_processing arb_init u))).
Proof.
  split; [reflexivity|]. intros Hu Hn. unfold gate.
  replace (str_eqb u (last_processed_message arb_init)) with false
    by (symmetry; now apply str_eqb_neq).
  cbn [processing_in_progress bot_is_speaking arb_init bind
       last_bot_speech_end recent_bot_responses].
  replace (Qlt_bool (now - 0) 1) with false; [reflexivity|].
  symmetry. apply Qlt_bool_false.
  apply Qle_trans with now; [exact Hn|].
  unfold Qminus. change (- 0)%Q with 0%Q. rewrite Qplus_0_r. apply Qle_refl.
Qed.

(** ** Classifier: the fixed entries *)

Lemma forallb_In {A} (f : A -> bool) (l : list A) (x : A) :
  forallb f l = true -> In x l -> f x = true.
Proof. intros H Hin. rewrite forallb_forall in H. now apply H. Qed.

(** X11: every farewell pattern, followed by any run of the marks
    [! ? . , : ;], is a farewell, and every small-talk entry followed by
    such a run, question marks included, is simple chat. *)
Theorem X11_entries_with_marks (p q : str) :
  all_marks q = true ->
  (In p FAREWELL_PATTERNS -> is_farewell (p ++ q) = true) /\
  (In p SIMPLE_CHAT_PATTERNS -> is_simple_chat (p ++ q) = true).
Proof.
  intros Hq. split; intros Hp.
  - assert (H : forallb (fun x => negb (trailing_space x) && is_farewell x)
                        FAREWELL_PATTERNS = true) by (vm_compute; reflexivity).
    apply (forallb_In _ _ p H) in Hp. apply andb_true_iff in Hp as [Ht Hf].
    apply negb_true_iff in Ht.
    unfold is_farewell in *. now rewrite (normalize_marks q p Ht Hq).
  - assert (H : forallb (fun x => negb (trailing_space x)
                                  && mem (normalize x) SIMPLE_CHAT_PATTERNS)
                        SIMPLE_CHAT_PATTERNS = true) by (vm_compute; reflexivity).
    apply (forallb_In _ _ p H) in Hp. apply andb_true_iff in Hp as [Ht Hm].
    apply negb_true_iff in Ht.
    unfold is_simple_chat. now rewrite (normalize_marks q p Ht Hq), Hm.
Qed.

Lemma X11_entries_with_marks_witness :
  is_simple_chat (lit "sounds good" ++ lit "?!") = true.
Proof.
  apply (X11_entries_with_marks (lit "sounds good") (lit "?!") eq_refl).
  vm_compute. tauto.
Defined.

(** ** Gateway client: how a stream fails *)

(** X14: while the generator is reading, a read that times out raises
    "Gateway timeout" and a negative answer to the request raises "Chat
    request failed: ..." with the carried message (or "Unknown error");
    in both cases what was yielded before stays yielded and no later
    frame is read. *)
Theorem X14_stream_failures (request_id : str) (run_id run_id' : option str)
  (pre post : list (Q * recv)) (ys : list (Q * str)) (t : Q) :
  stream_loop request_id run_id pre = (ys, Waiting run_id') ->
  stream_loop request_id run_id (pre ++ (t, RecvTimeout) :: post)
  = (ys, Raised t (Exception (lit "Gateway timeout"))) /\
  (forall f,
     opt_is (type f) "res" = true -> id f = Some request_id -> ok f = false ->
     stream_loop request_id run_id (pre ++ (t, Recv f) :: post)
     = (ys, Raised t (Exception (lit "Chat request failed: "
                                  ++ get_or (error_message f) "Unknown error")))).
Proof.
  intros Hpre. split.
  - rewrite (stream_loop_app _ _ _ _ _ _ Hpre). simpl. now rewrite app_nil_r.
  - intros f Ht Hid Hok.
    rewrite (stream_loop_app _ _ _ _ _ _ Hpre). simpl.
    unfold handle_frame. rewrite Ht, Hid, Hok. simpl.
    rewrite str_eqb_refl. simpl. now rewrite app_nil_r.
Qed.

Lemma X14_stream_failures_witness :
  stream_loop (lit "chat-1") None
              ([(1%Q, Recv (frame_res "chat-1" "r1"));
                (2%Q, Recv (frame_delta "r1" "Hello"))]
               ++ (122%Q, RecvTimeout) :: [])
  = ([(2%Q, lit "Hello")], Raised 122 (Exception (lit "Gateway timeout"))).
Proof.
  apply (X14_stream_failures (lit "chat-1") None (Some (lit "r1"))
           [(1%Q, Recv (frame_res "chat-1" "r1"));
            (2%Q, Recv (frame_delta "r1" "Hello"))] []
           [(2%Q, lit "Hello")] 122).
  vm_compute. reflexivity.
Defined.
